(** * The Kubernetes policy agent ([policy_agent.py]): reflectors, queue and dispatcher

    A shallow embedding of [PolicyAgent]: the per-resource worker
    ([_manage_resource], [_sync_resources], [_watch_resource]), the request
    helper ([_api_get]), the handler table ([add_handler], [get_handler]),
    the dispatcher ([read_updates], [_process_update]) and start-up
    ([load_cache], [start_workers], [run]).

    The Python code works on decoded JSON documents, raises and catches
    exceptions, and mutates the queue, the cache and the log.  Documents are
    the inductive [value]; a method is a function from the state of the world
    to an [outcome] and the next state. *)

From Stdlib Require Import ZArith Ascii String List Bool Lia.
From stdpp Require Import base option list strings gmap pretty.

#[local] Set Warnings "-register-all".
Local Open Scope Z_scope.
Local Open Scope string_scope.
Local Open Scope list_scope.

(** ** Python values *)

(** What [json.loads] and [Response.json] produce.  JSON numbers with a
    fraction are left out: the agent never computes with numbers.  A dict
    keeps its items in a list, first binding of a key wins; iterating a dict
    goes through that list in order. *)
Inductive value : Type :=
  | VNone
  | VBool (b : bool)
  | VInt (n : Z)
  | VStr (s : string)
  | VList (xs : list value)
  | VDict (items : list (string * value)).

(** The exception classes the agent raises, catches or lets through.
    [OtherError cls] is any class that is none of the named ones, nor a
    subclass of one. *)
Inductive exn : Type :=
  | KeyError
  | ValueError
  | TypeError
  | AttributeError
  | ConnectionError
  | HTTPError
  | KubernetesApiError
  | QueueFull
  | OtherError (cls : string).

Global Instance exn_eq_dec : EqDecision exn.
Proof. solve_decision. Defined.

(** How a call ends: it returns, it raises, it never comes back ([Blocked]:
    a [get] on an empty queue, a request the server never answers), or the
    loop bound of the model ran out ([OutOfFuel]). *)
Inductive outcome (A : Type) : Type :=
  | Return (a : A)
  | Raise (e : exn)
  | Blocked
  | OutOfFuel.
Arguments Return {A} a.
Arguments Raise {A} e.
Arguments Blocked {A}.
Arguments OutOfFuel {A}.

(** [d[k]] for a dict's items. *)
Fixpoint assoc (k : string) (items : list (string * value)) : option value :=
  match items with
  | [] => None
  | (k', v) :: rest => if String.eqb k k' then Some v else assoc k rest
  end.

(** [v[k]] with a string key: [KeyError] on a dict without the key,
    [TypeError] on anything that is not a dict. *)
Definition getitem (v : value) (k : string) : outcome value :=
  match v with
  | VDict items =>
      match assoc k items with
      | Some x => Return x
      | None => Raise KeyError
      end
  | _ => Raise TypeError
  end.

(** [v.get(k, default)]: only dicts have the method. *)
Definition get_default (v : value) (k : string) (default : value) : outcome value :=
  match v with
  | VDict items =>
      match assoc k items with
      | Some x => Return x
      | None => Return default
      end
  | _ => Raise AttributeError
  end.

(** [v.get(k)] *)
Definition get (v : value) (k : string) : outcome value := get_default v k VNone.

(** Truth value of an object in [if v:]. *)
Definition truthy (v : value) : bool :=
  match v with
  | VNone => false
  | VBool b => b
  | VInt n => negb (n =? 0)%Z
  | VStr s => negb (String.eqb s "")
  | VList xs => match xs with [] => false | _ => true end
  | VDict items => match items with [] => false | _ => true end
  end.

(** [v == s] for a string constant [s]. *)
Definition eq_str (v : value) (s : string) : bool :=
  match v with
  | VStr s' => String.eqb s' s
  | _ => false
  end.

(** Lists and dicts cannot be hashed, so they cannot be part of a dict key. *)
Definition hashable (v : value) : bool :=
  match v with
  | VList _ | VDict _ => false
  | _ => true
  end.

(** [len(v)] *)
Definition py_len (v : value) : outcome nat :=
  match v with
  | VStr s => Return (String.length s)
  | VList xs => Return (length xs)
  | VDict items => Return (length items)
  | _ => Raise TypeError
  end.

Fixpoint chars (s : string) : list value :=
  match s with
  | EmptyString => []
  | String c rest => VStr (String c EmptyString) :: chars rest
  end.

(** The objects [for x in v] goes through: a list's elements, a dict's keys,
    a string's characters. *)
Definition py_iter (v : value) : outcome (list value) :=
  match v with
  | VStr s => Return (chars s)
  | VList xs => Return xs
  | VDict items => Return (map (fun kv => VStr (fst kv)) items)
  | _ => Raise TypeError
  end.

Definition join (sep : string) (parts : list string) : string :=
  match parts with
  | [] => ""
  | p :: rest => fold_left (fun acc q => acc +:+ sep +:+ q) rest p
  end.

(** [repr(v)] and [str(v)], the text [%s] puts in a format.  [repr] of a
    string is written [u'...'] without escapes. *)
Fixpoint py_repr (v : value) : string :=
  match v with
  | VNone => "None"
  | VBool true => "True"
  | VBool false => "False"
  | VInt n => pretty n
  | VStr s => "u'" +:+ s +:+ "'"
  | VList xs => "[" +:+ join ", " (map py_repr xs) +:+ "]"
  | VDict items =>
      "{" +:+ join ", " (map (fun kv => "u'" +:+ fst kv +:+ "': " +:+ py_repr (snd kv)) items) +:+ "}"
  end.

Definition py_str (v : value) : string :=
  match v with
  | VStr s => s
  | _ => py_repr v
  end.

(** ** Constants, the agent and the world *)

(** The names the module takes from [constants.py], which is not part of the
    sources at hand; they are parameters of the whole development.  A URL
    table gives, for a resource type, the path its format string yields for
    an API base ([WATCH_URLS[resource_type] % self.k8s_api]). *)
Class Constants : Type := {
  TYPE_ADDED : string;
  TYPE_MODIFIED : string;
  TYPE_DELETED : string;
  TYPE_ERROR : string;
  RESOURCE_TYPE_NETWORK_POLICY : string;
  RESOURCE_TYPE_NAMESPACE : string;
  RESOURCE_TYPE_POD : string;
  MAX_QUEUE_SIZE : Z;
  QUEUE_PUT_TIMEOUT : Z;
  GET_URLS : gmap string (string -> string);
  WATCH_URLS : gmap string (string -> string);
  CA_CERT_PATH : string;
  NET_POL_TIER_NAME : string
}.

(** An update on the queue: [(event_type, resource_type, resource)]. *)
Abbreviation update := (value * value * value)%type.

(** The label set of a workload, and the cache from workload id to labels. *)
Abbreviation labels := (gmap string string).
Abbreviation cache_t := (gmap string labels).

(** A reconciliation handler, called as [handler(key, resource, self.cache)]
    with [key = (namespace, name)].  It may change the cache it is handed and
    it may raise; what it does to the policy store is its own business. *)
Abbreviation handler := (value * value -> value -> cache_t -> option exn * cache_t)%type.

(** An endpoint of the policy store, as far as [load_cache] reads it. *)
Record endpoint : Type := { workload_id : string; ep_labels : labels }.

(** The two calls the agent makes on [DatastoreClient]: each returns or
    raises. *)
Record DatastoreClient : Type := {
  set_policy_tier_metadata : string -> value -> option exn;
  get_endpoints : string -> exn + list endpoint
}.

(** The fields of [self] that stay fixed once [__init__] is over.  The queue
    and the cache change as the agent runs and live in [world]. *)
Record PolicyAgent : Type := {
  k8s_api : string;
  auth_token : option string;
  ca_crt_exists : bool;
  _client : DatastoreClient;
  _handlers : gmap (string * string) handler
}.

(** The [verify] argument of [session.get]: a CA bundle, or [False]. *)
Inductive verify_t : Type :=
  | VerifyWith (ca : string)
  | NoVerify.

(** What [_api_get] hands to [session.get]. *)
Record request : Type := {
  url : string;
  headers : list (string * string);
  verify : verify_t;
  stream : bool
}.

(** A line of a streamed body as [iter_lines] yields it, with what
    [json.loads] makes of it: an empty keep-alive line, a line that does not
    decode, or the encoding of a document. *)
Inductive line : Type :=
  | KeepAlive
  | Malformed (raw : string)
  | Encoded (doc : value).

(** A [requests] response.  [body] is what [json()] returns, [None] when the
    body is not JSON and [json()] raises [ValueError].  [lines] is what
    [iter_lines()] yields and [broken] how the stream ends: closed by the
    server ([None]) or with an exception raised from the read. *)
Record response : Type := {
  status_code : Z;
  body : option value;
  lines : list line;
  broken : option exn
}.

(** What the server does with a request: answer, or make [session.get]
    raise. *)
Inductive reply : Type :=
  | Answer (resp : response)
  | Failure (e : exn).

Inductive level : Type := DEBUG | INFO | WARNING | ERROR | EXCEPTION.

Definition level_eq_dec (a b : level) : {a = b} + {a <> b}.
Proof. decide equality. Defined.

(** An argument of a log call. *)
Inductive arg : Type :=
  | AStr (s : string)
  | AVal (v : value)
  | AJson (v : value)
  | ATuple (vs : list value)
  | ALine (l : line)
  | AResp (status : Z)
  | ALen (n : nat)
  | ABool (b : bool)
  | AFun.

(** What a thread does that the outside can see, in order. *)
Inductive event : Type :=
  | Log (lvl : level) (fmt : string) (args : list arg)
  | Get (req : request)
  | Put (u : update)
  | Took (u : update)
  | TaskDone
  | Sleep (seconds : Z)
  | SetTier (name : string) (metadata : value)
  | GetEndpoints (orchestrator_id : string)
  | CacheStore (key : string) (l : labels)
  | ThreadStart (resource_type : string).

(** The state a thread of the agent runs against: the items of
    [self._event_queue], [self.cache], the replies the API server will give
    to the requests to come, and the events so far.  One thread is followed
    at a time; the others do not touch the queue meanwhile. *)
Record world : Type := {
  queue : list update;
  cache : cache_t;
  net : list reply;
  trace : list event
}.

(** ** Methods as state transformers *)

Definition M (A : Type) : Type := world -> outcome A * world.

Global Instance M_ret : MRet M := fun A (a : A) w => (Return a, w).

Global Instance M_bind : MBind M := fun A B (k : A -> M B) (m : M A) w =>
  match m w with
  | (Return a, w') => k a w'
  | (Raise e, w') => (Raise e, w')
  | (Blocked, w') => (Blocked, w')
  | (OutOfFuel, w') => (OutOfFuel, w')
  end.

Definition raise {A} (e : exn) : M A := fun w => (Raise e, w).

(** Lift the result of a pure operation that may raise. *)
Definition lift {A} (o : outcome A) : M A := fun w => (o, w).

Definition emit (ev : event) : M unit :=
  fun w => (Return tt,
            {| queue := queue w; cache := cache w; net := net w;
               trace := trace w ++ [ev] |}).

Definition log (lvl : level) (fmt : string) (args : list arg) : M unit :=
  emit (Log lvl fmt args).

(** [try: body / except <classes>: handler]: [handles e] gives the clause
    that catches [e], if any. *)
Definition try_except {A} (body : M A) (handles : exn -> option (M A)) : M A :=
  fun w =>
    match body w with
    | (Raise e, w') =>
        match handles e with
        | Some h => h w'
        | None => (Raise e, w')
        end
    | r => r
    end.

(** [try: body / finally: fin].  [fin] runs when [body] returns or raises;
    then the return value or the exception of [body] goes on, unless [fin]
    itself does not return. *)
Definition try_finally {A} (body : M A) (fin : M unit) : M A :=
  fun w =>
    match body w with
    | (Return a, w') =>
        match fin w' with
        | (Return _, w'') => (Return a, w'')
        | (Raise e, w'') => (Raise e, w'')
        | (Blocked, w'') => (Blocked, w'')
        | (OutOfFuel, w'') => (OutOfFuel, w'')
        end
    | (Raise e, w') =>
        match fin w' with
        | (Return _, w'') => (Raise e, w'')
        | (Raise e', w'') => (Raise e', w'')
        | (Blocked, w'') => (Blocked, w'')
        | (OutOfFuel, w'') => (OutOfFuel, w'')
        end
    | r => r
    end.

(** [for x in xs: body x] *)
Fixpoint for_each {A} (xs : list A) (body : A -> M unit) : M unit :=
  match xs with
  | [] => mret tt
  | x :: rest => body x;; for_each rest body
  end.

(** ** The queue, the cache and the network *)

Definition with_queue (q : list update) (w : world) : world :=
  {| queue := q; cache := cache w; net := net w; trace := trace w |}.

Definition with_cache (c : cache_t) (w : world) : world :=
  {| queue := queue w; cache := c; net := net w; trace := trace w |}.

Definition with_net (n : list reply) (w : world) : world :=
  {| queue := queue w; cache := cache w; net := n; trace := trace w |}.

Definition with_trace (t : list event) (w : world) : world :=
  {| queue := queue w; cache := cache w; net := net w; trace := t |}.

Definition out_of_fuel {A} : M A := fun w => (OutOfFuel, w).

(** Run a loop with one turn more than the server has replies left. *)
Definition replies_bound {A} (loop : nat -> M A) : M A :=
  fun w => loop (S (length (net w))) w.

Section Agent.
Context `{Constants}.

(** [self._event_queue.put(update, block=True, timeout=QUEUE_PUT_TIMEOUT)] on
    a queue made with [maxsize=MAX_QUEUE_SIZE]: with nobody taking items
    meanwhile, a full queue is still full when the timeout is over and [put]
    raises [Full].  A [maxsize] of zero or less means no bound. *)
Definition queue_put (u : update) : M unit :=
  fun w =>
    if (0 <? MAX_QUEUE_SIZE)%Z && (MAX_QUEUE_SIZE <=? Z.of_nat (length (queue w)))%Z
    then (Raise QueueFull, w)
    else (Return tt, with_trace (trace w ++ [Put u]) (with_queue (queue w ++ [u]) w)).

(** [self._event_queue.get(block=True)]: waits for ever on an empty queue. *)
Definition queue_get : M update :=
  fun w =>
    match queue w with
    | [] => (Blocked, w)
    | u :: rest => (Return u, with_trace (trace w ++ [Took u]) (with_queue rest w))
    end.

(** [self._event_queue.task_done()] only counts for [join], which the agent
    never calls. *)
Definition task_done : M unit := emit TaskDone.

Definition queue_empty : M bool :=
  fun w => (Return (match queue w with [] => true | _ => false end), w).

(** [self.cache[key] = l] *)
Definition cache_store (key : string) (l : labels) : M unit :=
  fun w => (Return tt,
            with_trace (trace w ++ [CacheStore key l]) (with_cache (<[key := l]> (cache w)) w)).

(** [session.get(path, verify=verify, stream=stream)]: the request goes out,
    and the next reply of the server comes back. *)
Definition session_get (req : request) : M response :=
  fun w =>
    let w' := with_trace (trace w ++ [Get req]) w in
    match net w with
    | [] => (Blocked, w')
    | Answer resp :: rest => (Return resp, with_net rest w')
    | Failure e :: rest => (Raise e, with_net rest w')
    end.

(** [resp.json()] *)
Definition resp_json (resp : response) : outcome value :=
  match body resp with
  | Some doc => Return doc
  | None => Raise ValueError
  end.

(** [json.loads(line)] for a line that is not empty. *)
Definition json_loads (l : line) : outcome value :=
  match l with
  | Encoded doc => Return doc
  | _ => Raise ValueError
  end.

(** ** The handler table *)

Definition with_handlers (hs : gmap (string * string) handler) (self : PolicyAgent) : PolicyAgent :=
  {| k8s_api := k8s_api self; auth_token := auth_token self;
     ca_crt_exists := ca_crt_exists self; _client := _client self;
     _handlers := hs |}.

Definition add_handler (self : PolicyAgent) (resource_type event_type : string)
    (h : handler) : M PolicyAgent :=
  log INFO "Setting %s %s handler: %s" [AStr resource_type; AStr event_type; AFun];;
  let key := (resource_type, event_type) in
  mret (with_handlers (<[key := h]> (_handlers self)) self).

(** [self._handlers[key]] for [key = (resource_type, event_type)]: the table
    has pairs of strings as keys. *)
Definition lookup_handler (hs : gmap (string * string) handler)
    (resource_type event_type : value) : outcome handler :=
  if negb (hashable resource_type && hashable event_type) then Raise TypeError
  else
    match resource_type, event_type with
    | VStr r, VStr e =>
        match hs !! (r, e) with
        | Some h => Return h
        | None => Raise KeyError
        end
    | _, _ => Raise KeyError
    end.

Definition get_handler (self : PolicyAgent) (resource_type event_type : value) : M handler :=
  event_type ←
    (if eq_str event_type TYPE_MODIFIED
     then log DEBUG "Treating 'MODIFIED' as 'ADDED'" [];; mret (VStr TYPE_ADDED)
     else mret event_type);
  log DEBUG "Looking up handler for event: %s" [ATuple [resource_type; event_type]];;
  lift (lookup_handler (_handlers self) resource_type event_type).

(** ** Start-up: the cache *)

Definition load_cache (self : PolicyAgent) : M unit :=
  emit (GetEndpoints "k8s");;
  endpoints ← lift (match get_endpoints (_client self) "k8s" with
                    | inl e => Raise e
                    | inr eps => Return eps
                    end);
  for_each endpoints (fun ep => cache_store (workload_id ep) (ep_labels ep));;
  log INFO "Loaded cache" [].

(** ** The request helper *)

Definition _api_get (self : PolicyAgent) (path : string) (stream : bool)
    (resource_version : value) : M response :=
  log DEBUG "Getting API resources '%s' at version '%s'. stream=%s"
      [AStr path; AVal resource_version; ABool stream];;
  let path :=
    if truthy resource_version
    then path +:+ "?resourceVersion=" +:+ py_str resource_version
    else path in
  let headers :=
    match auth_token self with
    | Some token =>
        if negb (String.eqb token "") then [("Authorization", "Bearer " +:+ token)] else []
    | None => []
    end in
  let verify := if ca_crt_exists self then VerifyWith CA_CERT_PATH else NoVerify in
  session_get {| url := path; headers := headers; verify := verify; stream := stream |}.

(** ** The worker of a resource type *)

Definition _sync_resources (self : PolicyAgent) (resource_type : string) : M value :=
  log INFO "Syncing '%s' objects" [AStr resource_type];;
  url ← lift (match GET_URLS !! resource_type with
              | Some template => Return (template (k8s_api self))
              | None => Raise KeyError
              end);
  resp ← _api_get self url false VNone;
  log DEBUG "Response: %s" [AResp (status_code resp)];;
  if negb (status_code resp =? 200)%Z then
    doc ← lift (resp_json resp);
    log ERROR "Error querying API: %s" [AVal doc];;
    raise KubernetesApiError
  else
    doc ← lift (resp_json resp);
    resources ← lift (getitem doc "items");
    doc ← lift (resp_json resp);
    metadata ← lift (get_default doc "metadata" (VDict []));
    resource_version ← lift (get metadata "resourceVersion");
    log DEBUG "%s metadata: %s" [AStr resource_type; AVal metadata];;
    n ← lift (py_len resources);
    log INFO "%s existing %s(s) - add to queue" [ALen n; AStr resource_type];;
    objects ← lift (py_iter resources);
    for_each objects (fun resource =>
      log DEBUG "Queueing update: %s" [AVal resource];;
      let update := (VStr TYPE_ADDED, VStr resource_type, resource) in
      queue_put update);;
    log INFO "Done getting %s(s) - new resourceVersion: %s"
        [AStr resource_type; AVal resource_version];;
    mret resource_version.

(** The body of [for line in response.iter_lines()], from the lines still to
    come and the resource version so far to the resource version after the
    last line. *)
Fixpoint watch_lines (ls : list line) (resource_version : value) : M value :=
  match ls with
  | [] => mret resource_version
  | KeepAlive :: rest => watch_lines rest resource_version
  | l :: rest =>
      log DEBUG "Read line: %s" [ALine l];;
      parsed ← lift (json_loads l);
      type ← lift (getitem parsed "type");
      if eq_str type TYPE_ERROR then
        log ERROR "Received error from API: %s" [AJson parsed];;
        raise KubernetesApiError
      else
        type ← lift (getitem parsed "type");
        object ← lift (getitem parsed "object");
        kind ← lift (getitem object "kind");
        object ← lift (getitem parsed "object");
        let update := (type, kind, object) in
        queue_put update;;
        object ← lift (getitem parsed "object");
        metadata ← lift (getitem object "metadata");
        new_ver ← lift (getitem metadata "resourceVersion");
        log DEBUG "Update resourceVersion, was: %s, now: %s"
            [AVal resource_version; AVal new_ver];;
        watch_lines rest new_ver
  end.

(** The [while True] of [_watch_resource]; every turn sends one request. *)
Fixpoint watch_loop (fuel : nat) (self : PolicyAgent) (path : string)
    (resource_version : value) : M unit :=
  match fuel with
  | O => out_of_fuel
  | S fuel' =>
      response ← _api_get self path true resource_version;
      log DEBUG "Watch response for %s: %s" [AStr path; AResp (status_code response)];;
      if negb (status_code response =? 200)%Z then raise KubernetesApiError
      else
        resource_version ← watch_lines (lines response) resource_version;
        match broken response with
        | Some e => raise e
        | None => watch_loop fuel' self path resource_version
        end
  end.

(** A turn of the loop that goes on takes a reply of the server, so one turn
    more than there are replies is all the loop can make. *)
Definition _watch_resource (self : PolicyAgent) (resource_type : string)
    (resource_version : value) : M unit :=
  path ← lift (match WATCH_URLS !! resource_type with
               | Some template => Return (template (k8s_api self))
               | None => Raise KeyError
               end);
  log INFO "Starting watch on: %s" [AStr path];;
  replies_bound (fun fuel => watch_loop fuel self path resource_version).

(** The [except] clauses of [_manage_resource]. *)
Definition manage_except (resource_type : string) (e : exn) : option (M unit) :=
  match e with
  | ConnectionError =>
      Some (log EXCEPTION "Connection error querying: %s" [AStr resource_type])
  | HTTPError =>
      Some (log EXCEPTION "HTTP error querying: %s" [AStr resource_type])
  | KubernetesApiError =>
      Some (log EXCEPTION "Kubernetes API error managing %s" [AStr resource_type])
  | QueueFull =>
      Some (log EXCEPTION "Event queue full" [])
  | _ => None
  end.

(** One turn of the [while True] of [_manage_resource]. *)
Definition manage_turn (self : PolicyAgent) (resource_type : string) : M unit :=
  try_finally
    (try_except
       (resource_version ← _sync_resources self resource_type;
        _watch_resource self resource_type resource_version)
       (manage_except resource_type))
    (log WARNING "Re-starting watch on resource: %s" [AStr resource_type];;
     emit (Sleep 1)).

Fixpoint manage_loop (fuel : nat) (self : PolicyAgent) (resource_type : string) : M unit :=
  match fuel with
  | O => out_of_fuel
  | S fuel' => manage_turn self resource_type;; manage_loop fuel' self resource_type
  end.

(** A turn that is followed by another one has sent the list request and got
    its reply. *)
Definition _manage_resource (self : PolicyAgent) (resource_type : string) : M unit :=
  replies_bound (fun fuel => manage_loop fuel self resource_type).

(** ** The dispatcher *)

(** [handler(key, resource, self.cache)] *)
Definition call_handler (h : handler) (key : value * value) (resource : value) : M unit :=
  fun w =>
    let '(raised, c) := h key resource (cache w) in
    (match raised with
     | Some e => Raise e
     | None => Return tt
     end, with_cache c w).

Definition only_key_error {A} (clause : M A) (e : exn) : option (M A) :=
  match e with
  | KeyError => Some clause
  | _ => None
  end.

(** The [try] around [get_handler] has an [else] branch: the handler runs
    outside the reach of the first [except]. *)
Definition _process_update (self : PolicyAgent)
    (event_type resource_type resource : value) : M unit :=
  log DEBUG "Processing '%s' for kind '%s'" [AVal event_type; AVal resource_type];;
  metadata ← lift (getitem resource "metadata");
  name ← lift (getitem metadata "name");
  metadata ← lift (getitem resource "metadata");
  namespace ← lift (get metadata "namespace");
  let key := (namespace, name) in
  found ← try_except
    (h ← get_handler self resource_type event_type; mret (Some h))
    (only_key_error
       (log WARNING "No %s handlers for: %s" [AVal event_type; AVal resource_type];;
        mret None));
  match found with
  | None => mret tt
  | Some h =>
      try_except
        (call_handler h key resource;;
         log DEBUG "Handled %s for %s: %s"
             [AVal event_type; AVal resource_type; ATuple [namespace; name]])
        (only_key_error
           (log EXCEPTION "Invalid %s: %s" [AVal resource_type; AJson resource]))
  end.

(** One turn of the [while True] of [read_updates].  Nothing before [get]
    returns can raise, so the [except KeyError] clause, which logs [update],
    is put around what follows the [get]. *)
Definition read_turn (self : PolicyAgent) : M unit :=
  try_finally
    (log DEBUG "Reading from event queue" [];;
     update ← queue_get;
     try_except
       (let '(event_type, resource_type, resource) := update in
        log DEBUG "Read event: %s, %s, %s"
            [AVal event_type; AVal resource_type; AJson resource];;
        _process_update self event_type resource_type resource)
       (only_key_error
          (let '(event_type, resource_type, resource) := update in
           log EXCEPTION "Invalid update: %s"
               [ATuple [event_type; resource_type; resource]])))
    (task_done;;
     empty ← queue_empty;
     if (empty : bool) then log INFO "Emptied the event queue" [] else mret tt).

Fixpoint read_loop (fuel : nat) (self : PolicyAgent) : M unit :=
  match fuel with
  | O => out_of_fuel
  | S fuel' => read_turn self;; read_loop fuel' self
  end.

(** A turn that is followed by another one has taken an item, and no turn
    puts one: one turn more than there are items is all the loop can make. *)
Definition read_updates (self : PolicyAgent) : M unit :=
  fun w => read_loop (S (length (queue w))) self w.

(** ** Start-up *)

(** [t.start()] for the thread that runs [_manage_resource(resource_type)];
    the worker itself runs on its own from then on. *)
Definition thread_start (resource_type : string) : M unit :=
  emit (ThreadStart resource_type).

Definition start_workers (self : PolicyAgent) : M unit :=
  let resources := [RESOURCE_TYPE_NETWORK_POLICY;
                    RESOURCE_TYPE_NAMESPACE;
                    RESOURCE_TYPE_POD] in
  for_each resources (fun resource_type =>
    thread_start resource_type;;
    log INFO "Started worker thread for: %s" [AStr resource_type]).

Definition run (self : PolicyAgent) : M unit :=
  let metadata := VDict [("order", VInt 50)] in
  emit (SetTier NET_POL_TIER_NAME metadata);;
  lift (match set_policy_tier_metadata (_client self) NET_POL_TIER_NAME metadata with
        | Some e => Raise e
        | None => Return tt
        end);;
  load_cache self;;
  start_workers self;;
  read_updates self.

End Agent.

(** ** Making the agent *)

(** The names of [constants.py] that only the start of the process uses:
    the default API address and the name of the environment variable that
    holds the host of the Kubernetes service. *)
Class BootConstants : Type := {
  DEFAULT_API : string;
  K8S_SERVICE_HOST : string
}.

(** The reconciliation handlers the module imports from [handlers]. *)
Record Handlers : Type := {
  add_update_network_policy : handler;
  delete_network_policy : handler;
  add_update_namespace : handler;
  delete_namespace : handler;
  add_update_pod : handler;
  delete_pod : handler
}.

(** The operating system as the agent sees it when it starts: [os.environ]
    and the regular files, by path, with their text. *)
Record os_t : Type := {
  environ : gmap string string;
  files : gmap string string
}.

(** The string that is one line feed. *)
Definition newline : string := String "010"%char EmptyString.

(** [s.replace(newline, empty)]: every line feed is dropped. *)
Fixpoint remove_newlines (s : string) : string :=
  match s with
  | EmptyString => EmptyString
  | String c rest =>
      if Ascii.eqb c "010"%char then remove_newlines rest
      else String c (remove_newlines rest)
  end.

(** An optional string as a Python object, for the log. *)
Definition str_or_none (o : option string) : value :=
  match o with
  | Some s => VStr s
  | None => VNone
  end.

Definition token_file_path : string :=
  "/var/run/secrets/kubernetes.io/serviceaccount/token".

Definition read_token_file (os : os_t) : M (option string) :=
  let file_path := token_file_path in
  log DEBUG "Getting ServiceAccount token from: %s" [AStr file_path];;
  match files os !! file_path with
  | None =>
      log WARNING "No ServiceAccount token found on disk" [];;
      mret None
  | Some text =>
      let token := remove_newlines text in
      log DEBUG "Found ServiceAccount token: %s" [AStr token];;
      mret (Some token)
  end.

(** [open("/etc/hosts", "a")] and one [write]: the line goes after what the
    file holds, and the file is made if it is not there. *)
Definition configure_etc_hosts `{BootConstants} (os : os_t) : M os_t :=
  let k8s_host := default "10.100.0.1" (environ os !! K8S_SERVICE_HOST) in
  let hosts := default "" (files os !! "/etc/hosts") in
  let os' := {| environ := environ os;
                files := <["/etc/hosts" :=
                            hosts +:+ k8s_host +:+ "    kubernetes.default" +:+ newline]>
                           (files os) |} in
  log INFO "Appended 'kubernetes.default  -> %s' to /etc/hosts" [AStr k8s_host];;
  mret os'.

(** [PolicyAgent.__init__]: a new, empty queue and cache, the settings read
    from the environment and the disk, and the six handlers.  The default of
    [os.environ.get("K8S_AUTH_TOKEN", read_token_file())] is computed before
    the lookup, so the token file is read whether the variable is set or
    not. *)
Definition __init__ `{Constants} `{BootConstants} (os : os_t)
    (client : DatastoreClient) (hs : Handlers) : M PolicyAgent :=
  (fun w => (Return tt, with_cache ∅ (with_queue [] w)));;
  let k8s_api := default DEFAULT_API (environ os !! "K8S_API") in
  file_token ← read_token_file os;
  let auth_token :=
    match environ os !! "K8S_AUTH_TOKEN" with
    | Some token => Some token
    | None => file_token
    end in
  log DEBUG "Using auth token: %s" [AVal (str_or_none auth_token)];;
  let ca_crt_exists := bool_decide (is_Some (files os !! CA_CERT_PATH)) in
  let self := {| k8s_api := k8s_api; auth_token := auth_token;
                 ca_crt_exists := ca_crt_exists; _client := client;
                 _handlers := ∅ |} in
  self ← add_handler self RESOURCE_TYPE_NETWORK_POLICY TYPE_ADDED
           (add_update_network_policy hs);
  self ← add_handler self RESOURCE_TYPE_NETWORK_POLICY TYPE_DELETED
           (delete_network_policy hs);
  self ← add_handler self RESOURCE_TYPE_NAMESPACE TYPE_ADDED
           (add_update_namespace hs);
  self ← add_handler self RESOURCE_TYPE_NAMESPACE TYPE_DELETED
           (delete_namespace hs);
  self ← add_handler self RESOURCE_TYPE_POD TYPE_ADDED (add_update_pod hs);
  self ← add_handler self RESOURCE_TYPE_POD TYPE_DELETED (delete_pod hs);
  mret self.

(** ** A concrete setting *)

(** Modelled from the spec: [constants.py] is not among the sources.  The
    event kinds are the strings of the watch envelope ("ADDED", "MODIFIED",
    "DELETED", "ERROR") and the resource types the names the data model
    gives (NetworkPolicy, Namespace, Pod); the paths, the queue bound, the
    timeout, the CA bundle and the tier name are sample values. *)
Definition k8s_constants : Constants := {|
  TYPE_ADDED := "ADDED";
  TYPE_MODIFIED := "MODIFIED";
  TYPE_DELETED := "DELETED";
  TYPE_ERROR := "ERROR";
  RESOURCE_TYPE_NETWORK_POLICY := "NetworkPolicy";
  RESOURCE_TYPE_NAMESPACE := "Namespace";
  RESOURCE_TYPE_POD := "Pod";
  MAX_QUEUE_SIZE := 10;
  QUEUE_PUT_TIMEOUT := 5;
  GET_URLS := list_to_map
    [("NetworkPolicy", fun api => api +:+ "/apis/extensions/v1beta1/networkpolicies");
     ("Namespace", fun api => api +:+ "/api/v1/namespaces");
     ("Pod", fun api => api +:+ "/api/v1/pods")];
  WATCH_URLS := list_to_map
    [("NetworkPolicy", fun api => api +:+ "/apis/extensions/v1beta1/watch/networkpolicies");
     ("Namespace", fun api => api +:+ "/api/v1/watch/namespaces");
     ("Pod", fun api => api +:+ "/api/v1/watch/pods")];
  CA_CERT_PATH := "/var/run/secrets/kubernetes.io/serviceaccount/ca.crt";
  NET_POL_TIER_NAME := "k8s-network-policy"
|}.

(** A handler that leaves the cache alone and returns, and one that raises. *)
Definition quiet_handler : handler := fun _ _ c => (None, c).
Definition raising_handler (e : exn) : handler := fun _ _ c => (Some e, c).

(** A handler in the way of [add_update_pod]: it records the labels of the
    pod under its name. *)
Definition labelling_handler (l : labels) : handler :=
  fun key _ c =>
    match snd key with
    | VStr name => (None, <[name := l]> c)
    | _ => (Some KeyError, c)
    end.

(** A policy store with the given endpoints, whose calls return. *)
Definition store_with (eps : list endpoint) : DatastoreClient :=
  {| set_policy_tier_metadata := fun _ _ => None;
     get_endpoints := fun _ => inr eps |}.

(** An agent with a token and a CA bundle, and the given handler table. *)
Definition agent_with (hs : gmap (string * string) handler) : PolicyAgent :=
  {| k8s_api := "https://kubernetes.default:443";
     auth_token := Some "s3cr3t";
     ca_crt_exists := true;
     _client := store_with [];
     _handlers := hs |}.

(** An agent without a token and without a CA bundle. *)
Definition bare_agent : PolicyAgent :=
  {| k8s_api := "http://10.100.0.1:8080";
     auth_token := None;
     ca_crt_exists := false;
     _client := store_with [];
     _handlers := ∅ |}.

(** A fresh world: empty queue, empty cache, nothing logged, and the server
    set to give the replies [replies]. *)
Definition fresh (replies : list reply) : world :=
  {| queue := []; cache := ∅; net := replies; trace := [] |}.

(** A world in which the dispatcher finds [q] on the queue. *)
Definition queued (q : list update) : world :=
  {| queue := q; cache := ∅; net := []; trace := [] |}.

(** A list reply with the given status and body. *)
Definition list_reply (status : Z) (doc : option value) : reply :=
  Answer {| status_code := status; body := doc; lines := []; broken := None |}.

(** A watch reply: status 200, the lines, and a stream the server closes. *)
Definition stream_reply (ls : list line) : reply :=
  Answer {| status_code := 200; body := None; lines := ls; broken := None |}.

(** An object of kind [kind] with a name and a resource version. *)
Definition object_of (kind name version : string) : value :=
  VDict [("kind", VStr kind);
         ("metadata", VDict [("name", VStr name);
                             ("namespace", VStr "default");
                             ("resourceVersion", VStr version)])].

(** A watch envelope. *)
Definition envelope (type : string) (object : value) : line :=
  Encoded (VDict [("type", VStr type); ("object", object)]).

(** The [Get] events of a trace: the requests sent, in order. *)
Definition requests (t : list event) : list request :=
  omap (fun ev => match ev with Get req => Some req | _ => None end) t.

(** The updates put on the queue, in order. *)
Definition puts (t : list event) : list update :=
  omap (fun ev => match ev with Put u => Some u | _ => None end) t.

(** The list of pods the API server answers a resync with. *)
Definition pod_list : value :=
  VDict [("items", VList [object_of "Pod" "a" "3"; object_of "Pod" "b" "4"]);
         ("metadata", VDict [("resourceVersion", VStr "5")])].

(** The list path and the watch path of the pod resource. *)
Definition pods_url (api : string) : string := api +:+ "/api/v1/pods".

Definition watch_pods_url (api : string) : string := api +:+ "/api/v1/watch/pods".

(** A list body that names no resource version. *)
Definition pod_list_without_version : value :=
  VDict [("items", VList [object_of "Pod" "a" "3"])].

(** An update whose resource has metadata but no name in it. *)
Definition nameless : value :=
  VDict [("kind", VStr "Pod"); ("metadata", VDict [("namespace", VStr "default")])].

(** Sample values for the names only the start of the process uses. *)
Definition k8s_boot_constants : BootConstants := {|
  DEFAULT_API := "https://kubernetes.default:443";
  K8S_SERVICE_HOST := "KUBERNETES_SERVICE_HOST"
|}.

(** Six handlers that can be told apart by the label they leave in the
    cache. *)
Definition marking_handler (mark : string) : handler :=
  fun _ _ c => (None, <[mark := ∅]> c).

Definition sample_handlers : Handlers :=
  {| add_update_network_policy := marking_handler "add_update_network_policy";
     delete_network_policy := marking_handler "delete_network_policy";
     add_update_namespace := marking_handler "add_update_namespace";
     delete_namespace := marking_handler "delete_namespace";
     add_update_pod := marking_handler "add_update_pod";
     delete_pod := marking_handler "delete_pod" |}.

(** A pod of the cluster: the token and the CA bundle are mounted, the API
    address is left to its default. *)
Definition pod_os : os_t :=
  {| environ := {[ "KUBERNETES_SERVICE_HOST" := "10.0.0.1" ]};
     files := {[ token_file_path := "s3cr3t" +:+ newline;
                 "/var/run/secrets/kubernetes.io/serviceaccount/ca.crt" := "-----BEGIN";
                 "/etc/hosts" := "127.0.0.1 localhost" +:+ newline ]} |}.

(** A machine with nothing set and nothing mounted. *)
Definition bare_os : os_t := {| environ := ∅; files := ∅ |}.

(** ** Words for the properties *)

Section Vocabulary.
Context `{Constants}.

(** [n] more items fit: the queue is unbounded, or its bound is not reached. *)
Definition has_room (w : world) (n : nat) : Prop :=
  (MAX_QUEUE_SIZE <= 0 \/ Z.of_nat (length (queue w) + n) <= MAX_QUEUE_SIZE)%Z.

(** The event type [get_handler] looks up. *)
Definition looked_up (event_type : value) : value :=
  if eq_str event_type TYPE_MODIFIED then VStr TYPE_ADDED else event_type.

(** The request [_api_get] builds. *)
Definition request_of (self : PolicyAgent) (path : string) (stream : bool)
    (resource_version : value) : request :=
  {| url := if truthy resource_version
            then path +:+ "?resourceVersion=" +:+ py_str resource_version
            else path;
     headers := match auth_token self with
                | Some token =>
                    if negb (String.eqb token "")
                    then [("Authorization", "Bearer " +:+ token)] else []
                | None => []
                end;
     verify := if ca_crt_exists self then VerifyWith CA_CERT_PATH else NoVerify;
     stream := stream |}.

(** What [_api_get] leaves in the trace: its log record and the request. *)
Definition api_get_events (self : PolicyAgent) (path : string) (stream : bool)
    (resource_version : value) : list event :=
  [Log DEBUG "Getting API resources '%s' at version '%s'. stream=%s"
       [AStr path; AVal resource_version; ABool stream];
   Get (request_of self path stream resource_version)].

(** The Added-updates of a list of objects. *)
Definition added_updates (resource_type : string) (objects : list value) : list update :=
  map (fun resource => (VStr TYPE_ADDED, VStr resource_type, resource)) objects.

(** What queueing them leaves in the trace. *)
Definition queueing_events (resource_type : string) (objects : list value) : list event :=
  flat_map (fun resource =>
              [Log DEBUG "Queueing update: %s" [AVal resource];
               Put (VStr TYPE_ADDED, VStr resource_type, resource)]) objects.

(** The events of a list request up to the reply. *)
Definition list_request_events (self : PolicyAgent) (resource_type url : string)
    (resp : response) : list event :=
  [Log INFO "Syncing '%s' objects" [AStr resource_type]]
  ++ api_get_events self url false VNone
  ++ [Log DEBUG "Response: %s" [AResp (status_code resp)]].

(** The events of a streaming request up to the first line. *)
Definition watch_request_events (self : PolicyAgent) (path : string) (rv : value)
    (resp : response) : list event :=
  api_get_events self path true rv
  ++ [Log DEBUG "Watch response for %s: %s" [AStr path; AResp (status_code resp)]].

(** The world in which the lines of the first reply are read. *)
Definition watching (self : PolicyAgent) (path : string) (rv : value)
    (resp : response) (rest : list reply) (w : world) : world :=
  with_net rest
    (with_trace
       (trace w ++ Log INFO "Starting watch on: %s" [AStr path]
                   :: watch_request_events self path rv resp)
       w).

(** What the [finally] clause of [_manage_resource] leaves in the trace. *)
Definition restart_events (resource_type : string) : list event :=
  [Log WARNING "Re-starting watch on resource: %s" [AStr resource_type]; Sleep 1].

(** The log record of the [except] clause that catches [e], if one does. *)
Definition except_event (resource_type : string) (e : exn) : option event :=
  match e with
  | ConnectionError =>
      Some (Log EXCEPTION "Connection error querying: %s" [AStr resource_type])
  | HTTPError =>
      Some (Log EXCEPTION "HTTP error querying: %s" [AStr resource_type])
  | KubernetesApiError =>
      Some (Log EXCEPTION "Kubernetes API error managing %s" [AStr resource_type])
  | QueueFull =>
      Some (Log EXCEPTION "Event queue full" [])
  | _ => None
  end.

(** What looking a handler up leaves in the trace. *)
Definition get_handler_events (resource_type event_type : value) : list event :=
  (if eq_str event_type TYPE_MODIFIED
   then [Log DEBUG "Treating 'MODIFIED' as 'ADDED'" []] else [])
  ++ [Log DEBUG "Looking up handler for event: %s"
          [ATuple [resource_type; looked_up event_type]]].

(** What the [finally] clause of [read_updates] leaves in the trace, given
    the items still on the queue. *)
Definition finally_events (rest : list update) : list event :=
  TaskDone :: match rest with
              | [] => [Log INFO "Emptied the event queue" []]
              | _ => []
              end.

(** The events of a turn up to the call of [_process_update]. *)
Definition taking_events (event_type resource_type resource : value) : list event :=
  [Log DEBUG "Reading from event queue" [];
   Took (event_type, resource_type, resource);
   Log DEBUG "Read event: %s, %s, %s"
       [AVal event_type; AVal resource_type; AJson resource]].

(** The world in which [_process_update] runs on the first item. *)
Definition taken (event_type resource_type resource : value) (rest : list update)
    (w : world) : world :=
  with_queue rest
    (with_trace (trace w ++ taking_events event_type resource_type resource) w).






(** The world after a handler has run on the first item and changed the
    cache to [c], up to the events [evs] that follow the lookup. *)
Definition handled (event_type resource_type resource : value) (rest : list update)
    (c : cache_t) (evs : list event) (w : world) : world :=
  with_cache c
    (with_queue rest
       (with_trace
          (trace w
           ++ taking_events event_type resource_type resource
           ++ Log DEBUG "Processing '%s' for kind '%s'"
                  [AVal event_type; AVal resource_type]
              :: get_handler_events resource_type event_type
           ++ evs)
          w)).

(** The cache once the endpoints have been stored, one after the other. *)
Definition seed (eps : list endpoint) (c : cache_t) : cache_t :=
  foldl (fun c ep => <[workload_id ep := ep_labels ep]> c) c eps.

(** The stores of [load_cache], one per endpoint, in the order of the list. *)
Definition seeding_events (eps : list endpoint) : list event :=
  map (fun ep => CacheStore (workload_id ep) (ep_labels ep)) eps.

(** What [start_workers] leaves in the trace: three threads, in this order. *)
Definition start_events : list event :=
  flat_map (fun resource_type =>
              [ThreadStart resource_type;
               Log INFO "Started worker thread for: %s" [AStr resource_type]])
    [RESOURCE_TYPE_NETWORK_POLICY; RESOURCE_TYPE_NAMESPACE; RESOURCE_TYPE_POD].

(** [preserves R m]: whatever [m] does, the world it leaves is related by [R]
    to the world it started in.  For a preorder [R] this goes through
    sequencing, [try] and [for]. *)
Definition preserves {A} (R : relation world) (m : M A) : Prop :=
  forall w, R w (snd (m w)).

(** The trace of [w'] is the trace of [w] with events added at its end. *)
Definition grows (w w' : world) : Prop := exists t, trace w' = trace w ++ t.

(** No reply of the server was used between [w] and [w']. *)
Definition same_net (w w' : world) : Prop := net w' = net w.

(** The replies still to come never get more. *)
Definition net_le (w w' : world) : Prop := (length (net w') <= length (net w))%nat.

(** [in_time m]: [m] never ends because the bound of a loop ran out. *)
Definition in_time {A} (m : M A) : Prop := forall w, fst (m w) <> OutOfFuel.

(** The handler table [__init__] builds. *)
Definition init_handlers (hs : Handlers) : gmap (string * string) handler :=
  <[(RESOURCE_TYPE_POD, TYPE_DELETED) := delete_pod hs]>
    (<[(RESOURCE_TYPE_POD, TYPE_ADDED) := add_update_pod hs]>
       (<[(RESOURCE_TYPE_NAMESPACE, TYPE_DELETED) := delete_namespace hs]>
          (<[(RESOURCE_TYPE_NAMESPACE, TYPE_ADDED) := add_update_namespace hs]>
             (<[(RESOURCE_TYPE_NETWORK_POLICY, TYPE_DELETED) := delete_network_policy hs]>
                (<[(RESOURCE_TYPE_NETWORK_POLICY, TYPE_ADDED) :=
                     add_update_network_policy hs]> ∅))))).

(** The token [__init__] settles on: the environment variable if it is set,
    else the token file without its line feeds, else none. *)
Definition init_token (os : os_t) : option string :=
  match environ os !! "K8S_AUTH_TOKEN" with
  | Some token => Some token
  | None => remove_newlines <$> files os !! token_file_path
  end.

(** A string without a line feed. *)
Definition no_newline (s : string) : Prop :=
  ~ In "010"%char (list_ascii_of_string s).

(** The characters of a text that are not line feeds, in the order of the
    text. *)
Definition without_line_feeds (s : string) : list ascii :=
  List.filter (fun c => negb (Ascii.eqb c "010"%char)) (list_ascii_of_string s).

(** The key [get_handler] looks up for a resource type and an event type
    that are strings. *)
Definition lookup_key (T E : string) : string * string :=
  (T, if String.eqb E TYPE_MODIFIED then TYPE_ADDED else E).

(** The agent [__init__] makes. *)
Definition init_agent `{BootConstants} (os : os_t) (client : DatastoreClient) (hs : Handlers) : PolicyAgent :=
  {| k8s_api := default DEFAULT_API (environ os !! "K8S_API");
     auth_token := init_token os;
     ca_crt_exists := bool_decide (is_Some (files os !! CA_CERT_PATH));
     _client := client;
     _handlers := init_handlers hs |}.

(** The line [configure_etc_hosts] writes. *)
Definition hosts_line `{BootConstants} (os : os_t) : string :=
  default "10.100.0.1" (environ os !! K8S_SERVICE_HOST)
  +:+ "    kubernetes.default" +:+ newline.

(** What a line of the stream that goes through puts on the queue, and the
    resource version it leaves: [None] for a line the watch does not get
    through (and for a keep-alive line, which it skips). *)
Definition line_update (l : line) : option (update * value) :=
  match l with
  | Encoded doc =>
      match getitem doc "type", getitem doc "object" with
      | Return type, Return object =>
          if eq_str type TYPE_ERROR then None
          else
            match getitem object "kind", getitem object "metadata" with
            | Return kind, Return metadata =>
                match getitem metadata "resourceVersion" with
                | Return version => Some ((type, kind, object), version)
                | _ => None
                end
            | _, _ => None
            end
      | _, _ => None
      end
  | _ => None
  end.

(** A line the watch gets through: a keep-alive, or an event with all its
    fields. *)
Definition good_line (l : line) : Prop :=
  l = KeepAlive \/ is_Some (line_update l).

(** The updates of the lines of a stream, and their resource versions. *)
Definition stream_updates (ls : list line) : list update :=
  map fst (omap line_update ls).

Definition stream_versions (ls : list line) : list value :=
  map snd (omap line_update ls).

(** The cache is left alone. *)
Definition same_cache (w w' : world) : Prop := cache w' = cache w.

(** The items taken off the queue, in order. *)
Definition takes (t : list event) : list update :=
  omap (fun ev => match ev with Took u => Some u | _ => None end) t.

(** Nothing went to the server and nothing was put on the queue: no reply
    used, the same requests and the same puts in the trace; and the items
    taken since, in the order they were taken, are a front part of the old
    queue, the new queue being what is left of it. *)
Definition only_takes (w w' : world) : Prop :=
  net w' = net w
  /\ requests (trace w') = requests (trace w)
  /\ puts (trace w') = puts (trace w)
  /\ exists taken,
       queue w = taken ++ queue w' /\ takes (trace w') = takes (trace w) ++ taken.

(** What [_process_update] comes to for the cache, the log left out: how it
    ends and the cache it leaves. *)
Definition process_effect (self : PolicyAgent)
    (event_type resource_type resource : value) (c : cache_t) : outcome unit * cache_t :=
  match getitem resource "metadata" with
  | Return metadata =>
      match getitem metadata "name" with
      | Return name =>
          match get metadata "namespace" with
          | Return namespace =>
              match lookup_handler (_handlers self) resource_type (looked_up event_type) with
              | Return h =>
                  match h (namespace, name) resource c with
                  | (None, c') => (Return tt, c')
                  | (Some KeyError, c') => (Return tt, c')
                  | (Some e, c') => (Raise e, c')
                  end
              | Raise KeyError => (Return tt, c)
              | Raise e => (Raise e, c)
              | Blocked => (Blocked, c)
              | OutOfFuel => (OutOfFuel, c)
              end
          | Raise e => (Raise e, c)
          | Blocked => (Blocked, c)
          | OutOfFuel => (OutOfFuel, c)
          end
      | Raise e => (Raise e, c)
      | Blocked => (Blocked, c)
      | OutOfFuel => (OutOfFuel, c)
      end
  | Raise e => (Raise e, c)
  | Blocked => (Blocked, c)
  | OutOfFuel => (OutOfFuel, c)
  end.

(** The exception that ends the dispatcher on an update, if one does:
    [KeyError] is the one class [read_updates] catches. *)
Definition fatal (r : outcome unit) : option exn :=
  match r with
  | Raise KeyError => None
  | Raise e => Some e
  | _ => None
  end.

(** The dispatcher on a queue: the items are handled one after the other,
    from the front, until one ends it; with none left it waits.  The result
    is how it ends, the items never taken, and the cache. *)
Fixpoint drain (self : PolicyAgent) (q : list update) (c : cache_t)
    : outcome unit * list update * cache_t :=
  match q with
  | [] => (Blocked, [], c)
  | (event_type, resource_type, resource) :: rest =>
      let '(r, c') := process_effect self event_type resource_type resource c in
      match fatal r with
      | Some e => (Raise e, rest, c')
      | None => drain self rest c'
      end
  end.

(** [if line:] for a line of the stream. *)
Definition not_empty (l : line) : bool :=
  match l with
  | KeepAlive => false
  | _ => true
  end.

(** The queue has got longer by the updates put, and only by them. *)
Definition puts_only (w w' : world) : Prop :=
  exists us, queue w' = queue w ++ us /\ puts (trace w') = puts (trace w) ++ us.

(** The key [_process_update] makes for a resource: its namespace ([None]
    when it has none) and its name. *)
Definition key_of (resource : value) : option (value * value) :=
  match getitem resource "metadata" with
  | Return metadata =>
      match getitem metadata "name", get metadata "namespace" with
      | Return name, Return namespace => Some (namespace, name)
      | _, _ => None
      end
  | _ => None
  end.

(** The cache after the handler [h] has been called on each of the objects
    in turn, with the key of the object. *)
Definition handle_all (h : handler) (objects : list value) (c : cache_t) : cache_t :=
  foldl (fun c resource =>
           match key_of resource with
           | Some key => snd (h key resource c)
           | None => c
           end) c objects.

End Vocabulary.

(** * Properties *)

Section Properties.
Context `{Constants}.

(** ** Running binds *)

Lemma bind_return {A B} (m : M A) (k : A -> M B) w a w' :
  m w = (Return a, w') -> (m ≫= k) w = k a w'.
Proof. intros E. unfold mbind, M_bind. now rewrite E. Qed.

Lemma bind_raise {A B} (m : M A) (k : A -> M B) w e w' :
  m w = (Raise e, w') -> (m ≫= k) w = (Raise e, w').
Proof. intros E. unfold mbind, M_bind. now rewrite E. Qed.

Lemma log_run lvl fmt args w :
  log lvl fmt args w = (Return tt, with_trace (trace w ++ [Log lvl fmt args]) w).
Proof. reflexivity. Qed.

Lemma with_trace_app t1 t2 w :
  with_trace (trace (with_trace (trace w ++ t1) w) ++ t2) (with_trace (trace w ++ t1) w)
  = with_trace (trace w ++ t1 ++ t2) w.
Proof. unfold with_trace; cbn. now rewrite <- app_assoc. Qed.

(** ** The queue has room *)

Lemma queue_put_room u w :
  has_room w 1 ->
  queue_put u w
  = (Return tt, with_trace (trace w ++ [Put u]) (with_queue (queue w ++ [u]) w)).
Proof.
  unfold has_room, queue_put. intros Hroom.
  destruct ((0 <? MAX_QUEUE_SIZE)%Z
            && (MAX_QUEUE_SIZE <=? Z.of_nat (length (queue w)))%Z) eqn:E; [|reflexivity].
  apply andb_true_iff in E as [E1 E2].
  apply Z.ltb_lt in E1. apply Z.leb_le in E2. lia.
Qed.

Lemma queue_put_full u w :
  (0 < MAX_QUEUE_SIZE)%Z ->
  (MAX_QUEUE_SIZE <= Z.of_nat (length (queue w)))%Z ->
  queue_put u w = (Raise QueueFull, w).
Proof.
  intros H1 H2. unfold queue_put.
  apply Z.ltb_lt in H1. apply Z.leb_le in H2. now rewrite H1, H2.
Qed.

(** ** The handler table *)

Lemma get_handler_outcome self resource_type event_type w :
  fst (get_handler self resource_type event_type w)
  = lookup_handler (_handlers self) resource_type (looked_up event_type).
Proof.
  unfold get_handler, looked_up.
  destruct (eq_str event_type TYPE_MODIFIED); reflexivity.
Qed.

Lemma get_handler_world self resource_type event_type w :
  queue (snd (get_handler self resource_type event_type w)) = queue w
  /\ cache (snd (get_handler self resource_type event_type w)) = cache w
  /\ net (snd (get_handler self resource_type event_type w)) = net w.
Proof.
  unfold get_handler.
  destruct (eq_str event_type TYPE_MODIFIED); repeat split; reflexivity.
Qed.

(** C6. Resolving Modified for a resource type gives the handler registered
    for Added of that type, whatever is registered for Modified itself; and
    a pair whose key, once Modified is turned into Added, is not in the
    table makes [get_handler] raise [KeyError], the missing-handler error
    the dispatcher catches. *)
Theorem get_handler_modified_is_added self (T : string) w :
  (forall h, _handlers self !! (T, TYPE_ADDED) = Some h ->
     fst (get_handler self (VStr T) (VStr TYPE_MODIFIED) w) = Return h
     /\ fst (get_handler self (VStr T) (VStr TYPE_MODIFIED) w)
        = fst (get_handler self (VStr T) (VStr TYPE_ADDED) w))
  /\ (forall E : string,
        _handlers self !! (T, if String.eqb E TYPE_MODIFIED then TYPE_ADDED else E) = None ->
        fst (get_handler self (VStr T) (VStr E) w) = Raise KeyError).
Proof.
  split.
  - intros h Hh. rewrite !get_handler_outcome. unfold looked_up; cbn.
    rewrite String.eqb_refl.
    destruct (String.eqb TYPE_ADDED TYPE_MODIFIED); cbn; now rewrite Hh.
  - intros E HE. rewrite get_handler_outcome. unfold looked_up; cbn.
    destruct (String.eqb E TYPE_MODIFIED); cbn; now rewrite HE.
Qed.

(** A handler set with [add_handler] for Added is the one Modified gets. *)
Lemma add_handler_then_modified self (T : string) h w w' :
  fst (get_handler (with_handlers (<[(T, TYPE_ADDED) := h]> (_handlers self)) self)
         (VStr T) (VStr TYPE_MODIFIED) w') = Return h
  /\ fst (add_handler self T TYPE_ADDED h w)
     = Return (with_handlers (<[(T, TYPE_ADDED) := h]> (_handlers self)) self).
Proof.
  split; [|reflexivity].
  rewrite get_handler_outcome. unfold looked_up; cbn.
  rewrite String.eqb_refl. cbn. now rewrite lookup_insert_eq.
Qed.

(** ** The request helper *)

Lemma api_get_run self path stream rv w :
  _api_get self path stream rv w
  = match net w with
    | [] => (Blocked, with_trace (trace w ++ api_get_events self path stream rv) w)
    | Answer resp :: rest =>
        (Return resp,
         with_net rest (with_trace (trace w ++ api_get_events self path stream rv) w))
    | Failure e :: rest =>
        (Raise e,
         with_net rest (with_trace (trace w ++ api_get_events self path stream rv) w))
    end.
Proof.
  unfold _api_get, api_get_events, request_of.
  unfold mbind, M_bind, log, emit, session_get, with_trace, with_net; cbn.
  rewrite <- app_assoc; cbn.
  destruct (net w) as [|[resp|e] rest]; reflexivity.
Qed.

(** C9. The request [_api_get] sends carries a Bearer authorization header
    exactly when the agent has a token (a non-empty one), and then the
    header is "Bearer " followed by the token; it is verified against the CA
    bundle when the bundle was found and not verified otherwise; and a
    resource version that is given (a true value in Python's sense, such as
    a non-empty string) is appended to the path as
    "?resourceVersion=<version>", while without one the path is sent as it
    is. *)
Theorem api_get_request self path streamed rv w :
  exists req,
    trace (snd (_api_get self path streamed rv w))
    = trace w ++ [Log DEBUG "Getting API resources '%s' at version '%s'. stream=%s"
                      [AStr path; AVal rv; ABool streamed];
                  Get req]
    /\ ((exists v, In ("Authorization", v) (headers req))
        <-> (exists token, auth_token self = Some token /\ token <> ""))
    /\ (forall token, auth_token self = Some token -> token <> "" ->
          headers req = [("Authorization", "Bearer " +:+ token)])
    /\ (ca_crt_exists self = true -> verify req = VerifyWith CA_CERT_PATH)
    /\ (ca_crt_exists self = false -> verify req = NoVerify)
    /\ (truthy rv = true -> url req = path +:+ "?resourceVersion=" +:+ py_str rv)
    /\ (forall version, rv = VStr version -> version <> "" ->
          url req = path +:+ "?resourceVersion=" +:+ version)
    /\ (rv = VNone -> url req = path)
    /\ stream req = streamed.
Proof.
  exists (request_of self path streamed rv). split.
  { rewrite api_get_run. destruct (net w) as [|[resp|e] rest]; reflexivity. }
  unfold request_of; cbn.
  split; [|split; [|split; [|split; [|split; [|split; [|split]]]]]].
  - destruct (auth_token self) as [token|]; cbn.
    + destruct (String.eqb_spec token "") as [->|Hne]; cbn.
      * split; [intros [v []]|]. intros [t [[= <-] Ht]]. now destruct Ht.
      * split; [intros _; exists token; split; [reflexivity|exact Hne]|].
        intros _. eexists. left. reflexivity.
    + split; [intros [v []]|]. intros [t [[=] _]].
  - intros token -> Hne. destruct (String.eqb_spec token ""); [contradiction|reflexivity].
  - now intros ->.
  - now intros ->.
  - now intros ->.
  - intros version -> Hne. cbn.
    destruct (String.eqb_spec version ""); [contradiction|reflexivity].
  - now intros ->.
  - reflexivity.
Qed.

(** ** Running a method step by step *)

Lemma bind_log {B} lvl fmt args (k : unit -> M B) w :
  (log lvl fmt args ≫= k) w = k tt (with_trace (trace w ++ [Log lvl fmt args]) w).
Proof. reflexivity. Qed.

Lemma bind_emit {B} ev (k : unit -> M B) w :
  (emit ev ≫= k) w = k tt (with_trace (trace w ++ [ev]) w).
Proof. reflexivity. Qed.

Lemma bind_lift_return {A B} (a : A) (k : A -> M B) w :
  (lift (Return a) ≫= k) w = k a w.
Proof. reflexivity. Qed.

Lemma bind_lift_raise {A B} e (k : A -> M B) w :
  (lift (Raise e) ≫= k) w = (Raise e, w).
Proof. reflexivity. Qed.

Lemma bind_mret {A B} (a : A) (k : A -> M B) w :
  (mret a ≫= k) w = k a w.
Proof. reflexivity. Qed.

Lemma bind_raise_now {A B} e (k : A -> M B) w :
  (raise e ≫= k) w = (Raise e, w).
Proof. reflexivity. Qed.

Lemma bind_assoc {A B C} (m : M A) (k : A -> M B) (k' : B -> M C) w :
  ((m ≫= k) ≫= k') w = (m ≫= (fun a => k a ≫= k')) w.
Proof.
  unfold mbind, M_bind. destruct (m w) as [[a|e| |] w']; reflexivity.
Qed.

Ltac run_step :=
  first [ rewrite bind_log | rewrite bind_emit | rewrite bind_lift_return
        | rewrite bind_lift_raise | rewrite bind_mret | rewrite bind_raise_now ];
  cbv beta iota.

Ltac run := repeat run_step.

(** Bring the traces on both sides to the same bracketing. *)
Ltac same_trace :=
  repeat (progress (cbn [app]; rewrite <- ?app_assoc)); rewrite ?app_nil_r.

(** ** Resync *)

Lemma queue_all_added resource_type objects : forall w,
  has_room w (length objects) ->
  for_each objects (fun resource =>
      log DEBUG "Queueing update: %s" [AVal resource];;
      queue_put (VStr TYPE_ADDED, VStr resource_type, resource)) w
  = (Return tt,
     with_trace (trace w ++ queueing_events resource_type objects)
       (with_queue (queue w ++ added_updates resource_type objects) w)).
Proof.
  induction objects as [|o objects IH]; intros w Hroom.
  - cbn. unfold with_trace, with_queue. rewrite !app_nil_r. now destruct w.
  - cbn [for_each]. rewrite bind_assoc. run.
    erewrite bind_return; cycle 1.
    { apply queue_put_room. unfold has_room in *; cbn in *. lia. }
    rewrite IH.
    + unfold with_trace, with_queue; cbn. now rewrite <- !app_assoc.
    + unfold has_room in *; cbn in *. rewrite length_app; cbn. lia.
Qed.

Lemma sync_resources_start self resource_type template resp rest w :
  GET_URLS !! resource_type = Some template ->
  net w = Answer resp :: rest ->
  _sync_resources self resource_type w
  = (if negb (status_code resp =? 200)%Z then
       doc ← lift (resp_json resp);
       log ERROR "Error querying API: %s" [AVal doc];;
       raise KubernetesApiError
     else
       doc ← lift (resp_json resp);
       resources ← lift (getitem doc "items");
       doc ← lift (resp_json resp);
       metadata ← lift (get_default doc "metadata" (VDict []));
       resource_version ← lift (get metadata "resourceVersion");
       log DEBUG "%s metadata: %s" [AStr resource_type; AVal metadata];;
       n ← lift (py_len resources);
       log INFO "%s existing %s(s) - add to queue" [ALen n; AStr resource_type];;
       objects ← lift (py_iter resources);
       for_each objects (fun resource =>
         log DEBUG "Queueing update: %s" [AVal resource];;
         queue_put (VStr TYPE_ADDED, VStr resource_type, resource));;
       log INFO "Done getting %s(s) - new resourceVersion: %s"
           [AStr resource_type; AVal resource_version];;
       mret resource_version)
      (with_net rest
         (with_trace
            (trace w ++ list_request_events self resource_type (template (k8s_api self)) resp)
            w)).
Proof.
  intros Hurl Hnet. unfold _sync_resources. run. rewrite Hurl. run.
  erewrite bind_return; cycle 1.
  { rewrite api_get_run. cbn [net with_trace]. rewrite Hnet. reflexivity. }
  run. unfold list_request_events, with_net, with_trace; cbn.
  rewrite <- !app_assoc. reflexivity.
Qed.

(** A status other than 200 with a JSON body: the resync logs the body and
    raises the API error. *)
Lemma sync_resources_api_error self resource_type template resp rest doc w :
  GET_URLS !! resource_type = Some template ->
  net w = Answer resp :: rest ->
  status_code resp <> 200%Z ->
  body resp = Some doc ->
  fst (_sync_resources self resource_type w) = Raise KubernetesApiError.
Proof.
  intros Hurl Hnet Hstatus Hbody.
  rewrite (sync_resources_start _ _ _ _ _ _ Hurl Hnet).
  apply Z.eqb_neq in Hstatus. rewrite Hstatus. cbn [negb].
  unfold resp_json. rewrite Hbody. run. reflexivity.
Qed.

(** C5, where the code departs from it. A status other than 200 with a body
    that is not JSON: [resp.json()], called to log the error, raises
    [ValueError] before the [raise KubernetesApiError] is reached. *)
Theorem sync_resources_error_body_not_json self resource_type template resp rest w :
  GET_URLS !! resource_type = Some template ->
  net w = Answer resp :: rest ->
  status_code resp <> 200%Z ->
  body resp = None ->
  fst (_sync_resources self resource_type w) = Raise ValueError
  /\ fst (_sync_resources self resource_type w) <> Raise KubernetesApiError.
Proof.
  intros Hurl Hnet Hstatus Hbody.
  rewrite (sync_resources_start _ _ _ _ _ _ Hurl Hnet).
  apply Z.eqb_neq in Hstatus. rewrite Hstatus. cbn [negb].
  unfold resp_json. rewrite Hbody. run. cbn. split; [reflexivity|discriminate].
Qed.

(** Status 200, a body with a list of items, and room on the queue: one
    Added-update per item is put on the queue, in the order of the list,
    and the resource version of the body's metadata is returned ([None]
    when there is none). *)
Lemma sync_resources_ok self resource_type template resp rest doc objects
    metadata resource_version w :
  GET_URLS !! resource_type = Some template ->
  net w = Answer resp :: rest ->
  status_code resp = 200%Z ->
  body resp = Some doc ->
  getitem doc "items" = Return (VList objects) ->
  get_default doc "metadata" (VDict []) = Return metadata ->
  get metadata "resourceVersion" = Return resource_version ->
  has_room w (length objects) ->
  _sync_resources self resource_type w
  = (Return resource_version,
     with_net rest
       (with_queue (queue w ++ added_updates resource_type objects)
          (with_trace
             (trace w
              ++ list_request_events self resource_type (template (k8s_api self)) resp
              ++ [Log DEBUG "%s metadata: %s" [AStr resource_type; AVal metadata];
                  Log INFO "%s existing %s(s) - add to queue"
                      [ALen (length objects); AStr resource_type]]
              ++ queueing_events resource_type objects
              ++ [Log INFO "Done getting %s(s) - new resourceVersion: %s"
                      [AStr resource_type; AVal resource_version]])
             w))).
Proof.
  intros Hurl Hnet Hstatus Hbody Hitems Hmeta Hrv Hroom.
  rewrite (sync_resources_start _ _ _ _ _ _ Hurl Hnet).
  rewrite Hstatus. cbn [Z.eqb Pos.eqb negb].
  unfold resp_json. rewrite Hbody. run. rewrite Hitems. run.
  rewrite Hmeta. run. rewrite Hrv. run. cbn [py_len py_iter]. run.
  erewrite bind_return; cycle 1.
  { apply queue_all_added. exact Hroom. }
  run. unfold with_net, with_queue, with_trace; cbn.
  rewrite <- !app_assoc. reflexivity.
Qed.

(** ** What every step of a method keeps *)

Section Preserves.
Context (R : relation world) `{!PreOrder R}.

Lemma preserves_mret {A} (a : A) : preserves R (mret a).
Proof. intros w. reflexivity. Qed.

Lemma preserves_lift {A} (o : outcome A) : preserves R (lift o).
Proof. intros w. reflexivity. Qed.

Lemma preserves_raise {A} e : preserves R (@raise A e).
Proof. intros w. reflexivity. Qed.

Lemma preserves_out_of_fuel {A} : preserves R (@out_of_fuel A).
Proof. intros w. reflexivity. Qed.

Lemma preserves_queue_empty : preserves R queue_empty.
Proof. intros w. reflexivity. Qed.

Lemma preserves_bind {A B} (m : M A) (k : A -> M B) :
  preserves R m -> (forall a, preserves R (k a)) -> preserves R (m ≫= k).
Proof.
  intros Hm Hk w. specialize (Hm w).
  unfold mbind, M_bind. destruct (m w) as [[a|e| |] w']; cbn in Hm; auto.
  etransitivity; [exact Hm|apply Hk].
Qed.

Lemma preserves_try_except {A} (body : M A) handles :
  preserves R body -> (forall e h, handles e = Some h -> preserves R h) ->
  preserves R (try_except body handles).
Proof.
  intros Hb Hh w. specialize (Hb w).
  unfold try_except. destruct (body w) as [[a|e| |] w']; cbn in Hb; auto.
  destruct (handles e) as [h|] eqn:E; auto.
  etransitivity; [exact Hb|apply (Hh e h E)].
Qed.

Lemma preserves_try_finally {A} (body : M A) fin :
  preserves R body -> preserves R fin -> preserves R (try_finally body fin).
Proof.
  intros Hb Hf w. specialize (Hb w).
  unfold try_finally. destruct (body w) as [[a|e| |] w']; cbn in Hb; auto.
  - specialize (Hf w'). destruct (fin w') as [[[]|e'| |] w''];
      cbn in *; etransitivity; eauto.
  - specialize (Hf w'). destruct (fin w') as [[[]|e'| |] w''];
      cbn in *; etransitivity; eauto.
Qed.

Lemma preserves_for_each {A} (xs : list A) body :
  (forall x, preserves R (body x)) -> preserves R (for_each xs body).
Proof.
  intros Hb. induction xs as [|x xs IH]; cbn [for_each].
  - apply preserves_mret.
  - apply preserves_bind; auto.
Qed.

Lemma preserves_replies_bound {A} (loop : nat -> M A) :
  (forall fuel, preserves R (loop fuel)) -> preserves R (replies_bound loop).
Proof. intros Hl w. apply Hl. Qed.

Lemma preserves_only_key_error {A} (clause : M A) :
  preserves R clause -> forall e h, only_key_error clause e = Some h -> preserves R h.
Proof. intros Hc e h. destruct e; cbn; intros [= <-]; exact Hc. Qed.

End Preserves.

Create HintDb preserves.
#[local] Hint Resolve preserves_mret preserves_lift preserves_raise
  preserves_out_of_fuel preserves_queue_empty : preserves.

Ltac preserves_steps :=
  repeat match goal with
    | |- preserves _ (_ ≫= _) => apply preserves_bind; [typeclasses eauto| |intros ?]
    | |- preserves _ (if ?b then _ else _) => destruct b
    | |- preserves _ (match ?x with _ => _ end) => destruct x
    | |- preserves _ (for_each _ _) =>
        apply preserves_for_each; [typeclasses eauto|intros ?]
    | |- preserves _ (try_except _ (only_key_error _)) =>
        apply preserves_try_except;
        [typeclasses eauto| |apply preserves_only_key_error]
    | |- preserves _ (try_finally _ _) =>
        apply preserves_try_finally; [typeclasses eauto| | ]
    | |- preserves _ (replies_bound _) =>
        apply preserves_replies_bound; intros ?
    | |- preserves _ _ => solve [auto with preserves]
    end.

(** *** Events are only ever added *)

#[local] Instance grows_preorder : PreOrder grows.
Proof.
  split.
  - intros w. exists []. now rewrite app_nil_r.
  - intros w1 w2 w3 [t Ht] [t' Ht']. exists (t ++ t').
    rewrite Ht', Ht. now rewrite app_assoc.
Qed.

Lemma grows_emit ev : preserves grows (emit ev).
Proof. intros w. now exists [ev]. Qed.

Lemma grows_log lvl fmt args : preserves grows (log lvl fmt args).
Proof. apply grows_emit. Qed.

Lemma grows_queue_put u : preserves grows (queue_put u).
Proof.
  intros w. unfold queue_put.
  destruct (_ && _); [reflexivity | now exists [Put u]].
Qed.

Lemma grows_queue_get : preserves grows queue_get.
Proof.
  intros w. unfold queue_get.
  destruct (queue w) as [|u rest]; [reflexivity | now exists [Took u]].
Qed.

Lemma grows_cache_store key l : preserves grows (cache_store key l).
Proof. intros w. now exists [CacheStore key l]. Qed.

Lemma grows_session_get req : preserves grows (session_get req).
Proof.
  intros w. exists [Get req]. unfold session_get.
  destruct (net w) as [|[resp|e] rest]; reflexivity.
Qed.

Lemma grows_call_handler h key resource : preserves grows (call_handler h key resource).
Proof.
  intros w. unfold call_handler.
  destruct (h key resource (cache w)) as [raised c]. exists []. cbn. now rewrite app_nil_r.
Qed.

#[local] Hint Resolve grows_preorder grows_emit grows_log grows_queue_put grows_queue_get
  grows_cache_store grows_session_get grows_call_handler : preserves.

Lemma grows_api_get self path streamed rv : preserves grows (_api_get self path streamed rv).
Proof. unfold _api_get. preserves_steps. Qed.

Lemma grows_sync_resources self resource_type :
  preserves grows (_sync_resources self resource_type).
Proof. unfold _sync_resources. pose proof grows_api_get. preserves_steps. Qed.

Lemma grows_watch_lines ls : forall rv, preserves grows (watch_lines ls rv).
Proof.
  induction ls as [|l ls IH]; intros rv; [apply preserves_mret; typeclasses eauto|].
  destruct l; cbn [watch_lines]; auto; preserves_steps.
Qed.

Lemma grows_watch_loop self path fuel :
  forall rv, preserves grows (watch_loop fuel self path rv).
Proof.
  induction fuel as [|fuel IH]; intros rv; cbn [watch_loop];
    [apply preserves_out_of_fuel; typeclasses eauto|].
  pose proof grows_api_get. pose proof grows_watch_lines. preserves_steps.
Qed.

Lemma grows_watch_resource self resource_type rv :
  preserves grows (_watch_resource self resource_type rv).
Proof. unfold _watch_resource. pose proof grows_watch_loop. preserves_steps. Qed.

Lemma grows_manage_turn self resource_type :
  preserves grows (manage_turn self resource_type).
Proof.
  unfold manage_turn. apply preserves_try_finally; [typeclasses eauto| |preserves_steps].
  apply preserves_try_except; [typeclasses eauto| |].
  - pose proof grows_sync_resources. pose proof grows_watch_resource. preserves_steps.
  - intros e h. destruct e; cbn; intros [= <-]; apply grows_log.
Qed.

Lemma grows_manage_resource self resource_type :
  preserves grows (_manage_resource self resource_type).
Proof.
  unfold _manage_resource. apply preserves_replies_bound. intros fuel.
  induction fuel as [|fuel IH]; cbn [manage_loop];
    [apply preserves_out_of_fuel; typeclasses eauto|].
  pose proof grows_manage_turn. preserves_steps.
Qed.

Lemma grows_get_handler self resource_type event_type :
  preserves grows (get_handler self resource_type event_type).
Proof. unfold get_handler. preserves_steps. Qed.

Lemma grows_process_update self event_type resource_type resource :
  preserves grows (_process_update self event_type resource_type resource).
Proof. unfold _process_update. pose proof grows_get_handler. preserves_steps. Qed.

Lemma grows_read_turn self : preserves grows (read_turn self).
Proof.
  unfold read_turn, task_done. apply preserves_try_finally;
    [typeclasses eauto| |preserves_steps].
  apply preserves_bind; [typeclasses eauto|auto with preserves|intros _].
  apply preserves_bind;
    [typeclasses eauto|auto with preserves|intros [[event_type resource_type] resource]].
  pose proof grows_process_update. preserves_steps.
Qed.

Lemma grows_read_updates self : preserves grows (read_updates self).
Proof.
  intros w. unfold read_updates. generalize (S (length (queue w))). intros fuel.
  revert w. change (preserves grows (read_loop fuel self)).
  induction fuel as [|fuel IH]; cbn [read_loop];
    [apply preserves_out_of_fuel; typeclasses eauto|].
  pose proof grows_read_turn. preserves_steps.
Qed.

(** *** The lines of a stream use no reply of the server *)

#[local] Instance same_net_preorder : PreOrder same_net.
Proof. split; [intros w; reflexivity | intros w1 w2 w3; unfold same_net; congruence]. Qed.

Lemma same_net_emit ev : preserves same_net (emit ev).
Proof. intros w. reflexivity. Qed.

Lemma same_net_log lvl fmt args : preserves same_net (log lvl fmt args).
Proof. intros w. reflexivity. Qed.

Lemma same_net_queue_put u : preserves same_net (queue_put u).
Proof. intros w. unfold queue_put. destruct (_ && _); reflexivity. Qed.

#[local] Hint Resolve same_net_preorder same_net_emit same_net_log same_net_queue_put : preserves.

Lemma same_net_watch_lines ls : forall rv, preserves same_net (watch_lines ls rv).
Proof.
  induction ls as [|l ls IH]; intros rv; [apply preserves_mret; typeclasses eauto|].
  destruct l; cbn [watch_lines]; auto; preserves_steps.
Qed.

(** ** Watch *)

(** C3, as the code has it. A line of the stream that is not empty, decodes
    to an envelope whose type is not the error type, and whose object has a
    kind and a resource version in its metadata: with room on the queue, the
    update put on the queue is [(type, object.kind, object)], so its
    resource type is the kind the object itself carries (the watch loop is
    not even told the resource type it runs for); after that the resource
    version the watch goes on with is [object.metadata.resourceVersion]. *)
Theorem watch_line_enqueues_object_kind doc type object kind metadata new_ver rest rv w :
  getitem doc "type" = Return type ->
  eq_str type TYPE_ERROR = false ->
  getitem doc "object" = Return object ->
  getitem object "kind" = Return kind ->
  getitem object "metadata" = Return metadata ->
  getitem metadata "resourceVersion" = Return new_ver ->
  has_room w 1 ->
  watch_lines (Encoded doc :: rest) rv w
  = watch_lines rest new_ver
      (with_queue (queue w ++ [(type, kind, object)])
         (with_trace
            (trace w ++ [Log DEBUG "Read line: %s" [ALine (Encoded doc)];
                         Put (type, kind, object);
                         Log DEBUG "Update resourceVersion, was: %s, now: %s"
                             [AVal rv; AVal new_ver]])
            w)).
Proof.
  intros Htype Herr Hobj Hkind Hmeta Hver Hroom.
  cbn [watch_lines]. run. cbn [json_loads]. run.
  rewrite Htype. run. rewrite Herr, Hobj. run. rewrite Hkind. run.
  erewrite bind_return; cycle 1.
  { apply queue_put_room. exact Hroom. }
  cbv beta. run. rewrite Hmeta. run. rewrite Hver. run.
  unfold with_trace, with_queue; cbn. rewrite <- !app_assoc. reflexivity.
Qed.

(** An empty line is skipped. *)
Lemma watch_lines_keep_alive rest rv w :
  watch_lines (KeepAlive :: rest) rv w = watch_lines rest rv w.
Proof. reflexivity. Qed.

(** A line that does not decode makes the watch raise [ValueError]. *)
Lemma watch_lines_malformed raw rest rv w :
  watch_lines (Malformed raw :: rest) rv w
  = (Raise ValueError,
     with_trace (trace w ++ [Log DEBUG "Read line: %s" [ALine (Malformed raw)]]) w).
Proof. reflexivity. Qed.

(** An error envelope makes the watch raise the API error. *)
Lemma watch_lines_error_envelope doc type rest rv w :
  getitem doc "type" = Return type ->
  eq_str type TYPE_ERROR = true ->
  fst (watch_lines (Encoded doc :: rest) rv w) = Raise KubernetesApiError.
Proof.
  intros Htype Herr. cbn [watch_lines]. run. cbn [json_loads]. run.
  rewrite Htype. run. rewrite Herr. run. reflexivity.
Qed.

Lemma watch_loop_unfold fuel self path rv :
  watch_loop (S fuel) self path rv
  = (response ← _api_get self path true rv;
     log DEBUG "Watch response for %s: %s" [AStr path; AResp (status_code response)];;
     if negb (status_code response =? 200)%Z then raise KubernetesApiError
     else
       resource_version ← watch_lines (lines response) rv;
       match broken response with
       | Some e => raise e
       | None => watch_loop fuel self path resource_version
       end).
Proof. reflexivity. Qed.

Lemma watch_resource_start self resource_type template rv resp rest w :
  WATCH_URLS !! resource_type = Some template ->
  net w = Answer resp :: rest ->
  status_code resp = 200%Z ->
  let path := template (k8s_api self) in
  _watch_resource self resource_type rv w
  = (resource_version ← watch_lines (lines resp) rv;
     match broken resp with
     | Some e => raise e
     | None => watch_loop (S (length rest)) self path resource_version
     end) (watching self path rv resp rest w).
Proof.
  intros Hurl Hnet Hstatus path. unfold _watch_resource. rewrite Hurl. run.
  unfold replies_bound. cbn [net with_trace]. rewrite Hnet.
  cbn [length]. rewrite watch_loop_unfold.
  erewrite bind_return; cycle 1.
  { rewrite api_get_run. cbn [net with_trace]. rewrite Hnet. reflexivity. }
  run.
  assert (negb (status_code resp =? 200)%Z = false) as ->
    by (rewrite Hstatus; reflexivity).
  unfold watching, watch_request_events, with_net, with_trace.
  cbn [queue cache net trace]. rewrite <- !app_assoc. reflexivity.
Qed.

(** A turn of the watch loop starts with its request. *)
Lemma watch_loop_first_request fuel self path rv w :
  exists t,
    trace (snd (watch_loop (S fuel) self path rv w))
    = trace w ++ api_get_events self path true rv ++ t.
Proof.
  rewrite watch_loop_unfold. unfold mbind at 1, M_bind at 1.
  rewrite api_get_run.
  destruct (net w) as [|[resp|e] rest].
  - exists []. rewrite app_nil_r. reflexivity.
  - match goal with
    | |- context [ snd (?k ?w') ] =>
        assert (Hg : preserves grows k)
    end.
    { pose proof grows_watch_lines. pose proof (grows_watch_loop self path fuel).
      preserves_steps. }
    match goal with
    | |- context [ snd (?k ?w') ] => destruct (Hg w') as [t Ht]; exists t; rewrite Ht
    end.
    cbn. now rewrite <- app_assoc.
  - exists []. rewrite app_nil_r. reflexivity.
Qed.

(** The watch loop has no way out but an exception. *)
Lemma watch_loop_never_returns self path fuel :
  forall rv w, fst (watch_loop fuel self path rv w) <> Return tt.
Proof.
  induction fuel as [|fuel IH]; intros rv w; [discriminate|].
  rewrite watch_loop_unfold. unfold mbind at 1, M_bind at 1.
  rewrite api_get_run.
  destruct (net w) as [|[resp|e] rest]; try discriminate.
  run. destruct (negb _); [discriminate|].
  unfold mbind at 1, M_bind at 1.
  destruct (watch_lines _ _ _) as [[rv'|e| |] w']; try discriminate.
  destruct (broken resp); [discriminate|apply IH].
Qed.

(** A watch request that fails (the connection cannot be made, say) makes
    [_watch_resource] raise what [session.get] raised. *)
Lemma watch_resource_request_fails self resource_type template rv e rest w :
  WATCH_URLS !! resource_type = Some template ->
  net w = Failure e :: rest ->
  fst (_watch_resource self resource_type rv w) = Raise e.
Proof.
  intros Hurl Hnet. unfold _watch_resource. rewrite Hurl. run.
  unfold replies_bound. rewrite watch_loop_unfold.
  unfold mbind, M_bind. rewrite api_get_run. cbn [net with_trace].
  now rewrite Hnet.
Qed.

(** A status other than 200 makes it raise the API error. *)
Lemma watch_resource_error_status self resource_type template rv resp rest w :
  WATCH_URLS !! resource_type = Some template ->
  net w = Answer resp :: rest ->
  status_code resp <> 200%Z ->
  fst (_watch_resource self resource_type rv w) = Raise KubernetesApiError.
Proof.
  intros Hurl Hnet Hstatus. unfold _watch_resource. rewrite Hurl. run.
  unfold replies_bound. rewrite watch_loop_unfold.
  unfold mbind at 1, M_bind at 1. rewrite api_get_run. cbn [net with_trace].
  rewrite Hnet. run. apply Z.eqb_neq in Hstatus. now rewrite Hstatus.
Qed.

(** C4, as the code has it. The first reply to the watch has status 200.
    - If all its lines are consumed and the server then closes the stream
      without error, the watch does not end: it goes round its own loop and
      sends another streaming request, for the same path, from the resource
      version reached; it never returns.
    - If reading the stream fails after the lines (a transport failure), or
      a line fails (it does not decode, a field is missing, the queue is
      full), that exception leaves [_watch_resource]. *)
Theorem watch_stream_end_and_failure self resource_type template rv resp rest w :
  WATCH_URLS !! resource_type = Some template ->
  net w = Answer resp :: rest ->
  status_code resp = 200%Z ->
  let path := template (k8s_api self) in
  let w1 := watching self path rv resp rest w in
  (forall rv' w2,
     watch_lines (lines resp) rv w1 = (Return rv', w2) -> broken resp = None ->
     _watch_resource self resource_type rv w
     = replies_bound (fun fuel => watch_loop fuel self path rv') w2
     /\ (exists t,
           trace (snd (_watch_resource self resource_type rv w))
           = trace w2 ++ api_get_events self path true rv' ++ t)
     /\ fst (_watch_resource self resource_type rv w) <> Return tt)
  /\ (forall rv' w2 e,
        watch_lines (lines resp) rv w1 = (Return rv', w2) -> broken resp = Some e ->
        _watch_resource self resource_type rv w = (Raise e, w2))
  /\ (forall e w2,
        watch_lines (lines resp) rv w1 = (Raise e, w2) ->
        _watch_resource self resource_type rv w = (Raise e, w2)).
Proof.
  intros Hurl Hnet Hstatus path w1.
  rewrite (watch_resource_start _ _ _ _ _ _ _ Hurl Hnet Hstatus).
  fold path. fold w1. split; [|split].
  - intros rv' w2 Hlines Hclosed.
    assert (Hnet2 : net w2 = rest).
    { pose proof (same_net_watch_lines (lines resp) rv w1) as Hsame.
      rewrite Hlines in Hsame. exact Hsame. }
    rewrite (bind_return _ _ _ _ _ Hlines), Hclosed.
    unfold replies_bound. rewrite Hnet2. split; [reflexivity|split].
    + apply watch_loop_first_request.
    + apply watch_loop_never_returns.
  - intros rv' w2 e Hlines Hbroken.
    rewrite (bind_return _ _ _ _ _ Hlines), Hbroken. reflexivity.
  - intros e w2 Hlines. now rewrite (bind_raise _ _ _ _ _ Hlines).
Qed.

(** ** The worker loop *)

Lemma manage_except_event resource_type e :
  manage_except resource_type e = emit <$> except_event resource_type e.
Proof. destruct e; reflexivity. Qed.

(** An exception of one of the four classes is logged, the worker sleeps a
    second, and the turn is over: the loop goes on with a new resync. *)
Lemma manage_turn_caught self resource_type e ev w w' :
  (resource_version ← _sync_resources self resource_type;
   _watch_resource self resource_type resource_version) w = (Raise e, w') ->
  except_event resource_type e = Some ev ->
  manage_turn self resource_type w
  = (Return tt, with_trace (trace w' ++ ev :: restart_events resource_type) w').
Proof.
  intros Hbody Hev. unfold manage_turn, try_finally, try_except.
  rewrite Hbody, manage_except_event, Hev. cbn.
  rewrite bind_log. unfold emit, with_trace; cbn.
  rewrite <- !app_assoc. reflexivity.
Qed.

Lemma manage_loop_restarts self resource_type fuel e ev w w' :
  (resource_version ← _sync_resources self resource_type;
   _watch_resource self resource_type resource_version) w = (Raise e, w') ->
  except_event resource_type e = Some ev ->
  manage_loop (S fuel) self resource_type w
  = manage_loop fuel self resource_type
      (with_trace (trace w' ++ ev :: restart_events resource_type) w').
Proof.
  intros Hbody Hev. cbn [manage_loop].
  now rewrite (bind_return _ _ _ _ _ (manage_turn_caught _ _ _ _ _ _ Hbody Hev)).
Qed.

(** Any other exception goes through the [finally] clause, which logs the
    restart and sleeps all the same, and then leaves the loop. *)
Lemma manage_turn_uncaught self resource_type e w w' :
  (resource_version ← _sync_resources self resource_type;
   _watch_resource self resource_type resource_version) w = (Raise e, w') ->
  except_event resource_type e = None ->
  manage_turn self resource_type w
  = (Raise e, with_trace (trace w' ++ restart_events resource_type) w').
Proof.
  intros Hbody Hev. unfold manage_turn, try_finally, try_except.
  rewrite Hbody, manage_except_event, Hev. cbn.
  rewrite bind_log. unfold emit, with_trace; cbn.
  rewrite <- !app_assoc. reflexivity.
Qed.

Lemma manage_resource_uncaught self resource_type e w w' :
  (resource_version ← _sync_resources self resource_type;
   _watch_resource self resource_type resource_version) w = (Raise e, w') ->
  except_event resource_type e = None ->
  _manage_resource self resource_type w
  = (Raise e, with_trace (trace w' ++ restart_events resource_type) w').
Proof.
  intros Hbody Hev. unfold _manage_resource, replies_bound. cbn [manage_loop].
  now rewrite (bind_raise _ _ _ _ _ (manage_turn_uncaught _ _ _ _ _ Hbody Hev)).
Qed.

(** C1, where the code departs from it. The resync went well and the watch
    got its reply, but the first line that is not a keep-alive does not
    decode.  [json.loads] raises [ValueError]; no [except] clause of
    [_manage_resource] names it, so after the [finally] clause has logged
    "Re-starting watch" and slept, the exception leaves the [while True]
    loop and the worker is over: no new resync, the replies the server still
    had are never asked for. *)
Theorem manage_resource_ends_on_malformed_line self resource_type template
    rv raw after resp rest w w1 :
  _sync_resources self resource_type w = (Return rv, w1) ->
  WATCH_URLS !! resource_type = Some template ->
  net w1 = Answer resp :: rest ->
  status_code resp = 200%Z ->
  lines resp = Malformed raw :: after ->
  let w2 := watching self (template (k8s_api self)) rv resp rest w1 in
  _manage_resource self resource_type w
  = (Raise ValueError,
     with_trace
       (trace w2 ++ Log DEBUG "Read line: %s" [ALine (Malformed raw)]
                    :: restart_events resource_type)
       w2)
  /\ net (snd (_manage_resource self resource_type w)) = rest.
Proof.
  intros Hsync Hurl Hnet Hstatus Hlines w2.
  assert (Hbody : (resource_version ← _sync_resources self resource_type;
                   _watch_resource self resource_type resource_version) w
                  = (Raise ValueError,
                     with_trace (trace w2 ++ [Log DEBUG "Read line: %s"
                                                  [ALine (Malformed raw)]]) w2)).
  { rewrite (bind_return _ _ _ _ _ Hsync).
    rewrite (watch_resource_start _ _ _ _ _ _ _ Hurl Hnet Hstatus).
    rewrite Hlines. fold w2. erewrite bind_raise; [reflexivity|].
    apply watch_lines_malformed. }
  rewrite (manage_resource_uncaught _ _ _ _ _ Hbody eq_refl).
  split; [|reflexivity].
  unfold with_trace; cbn. rewrite <- app_assoc. reflexivity.
Qed.


(** ** The dispatcher *)

Lemma get_handler_run self resource_type event_type w :
  get_handler self resource_type event_type w
  = (lookup_handler (_handlers self) resource_type (looked_up event_type),
     with_trace (trace w ++ get_handler_events resource_type event_type) w).
Proof.
  unfold get_handler, get_handler_events, looked_up.
  destruct (eq_str event_type TYPE_MODIFIED);
    unfold mbind, M_bind, mret, M_ret, log, emit, lift, with_trace; cbn;
    rewrite <- ?app_assoc; reflexivity.
Qed.

Lemma read_finally_run w :
  (task_done;;
   empty ← queue_empty;
   if (empty : bool) then log INFO "Emptied the event queue" [] else mret tt) w
  = (Return tt, with_trace (trace w ++ finally_events (queue w)) w).
Proof.
  unfold task_done. run. unfold queue_empty, mbind, M_bind, finally_events.
  cbn [queue with_trace trace].
  destruct (queue w) as [|u rest] eqn:E; cbn; unfold log, emit, with_trace; cbn;
    rewrite <- ?app_assoc; reflexivity.
Qed.

Lemma read_turn_first self event_type resource_type resource rest w :
  queue w = (event_type, resource_type, resource) :: rest ->
  read_turn self w
  = try_finally
      (try_except
         (_process_update self event_type resource_type resource)
         (only_key_error
            (log EXCEPTION "Invalid update: %s"
                 [ATuple [event_type; resource_type; resource]])))
      (task_done;;
       empty ← queue_empty;
       if (empty : bool) then log INFO "Emptied the event queue" [] else mret tt)
      (taken event_type resource_type resource rest w).
Proof.
  intros Hq. unfold read_turn, try_finally at 1.
  rewrite bind_log.
  unfold mbind at 1, M_bind at 1, queue_get. cbn [queue with_trace]. rewrite Hq.
  unfold try_except at 1. rewrite bind_log.
  unfold taken, taking_events, with_queue, with_trace, try_finally, try_except.
  cbn [queue cache net trace]. rewrite <- !app_assoc. reflexivity.
Qed.

(** A turn that returns hands the rest of the queue to the next turn; a turn
    that raises ends [read_updates]. *)
Lemma read_updates_next self u rest w w' :
  queue w = u :: rest ->
  read_turn self w = (Return tt, w') ->
  queue w' = rest ->
  read_updates self w = read_updates self w'.
Proof.
  intros Hq Hturn Hq'. unfold read_updates. rewrite Hq, Hq'. cbn [length].
  change (read_loop (S (S (length rest))) self w)
    with ((read_turn self;; read_loop (S (length rest)) self) w).
  now rewrite (bind_return _ _ _ _ _ Hturn).
Qed.

Lemma read_updates_raises self e w w' :
  read_turn self w = (Raise e, w') ->
  read_updates self w = (Raise e, w').
Proof.
  intros Hturn. unfold read_updates.
  change (read_loop (S (length (queue w))) self w)
    with ((read_turn self;; read_loop (length (queue w)) self) w).
  now rewrite (bind_raise _ _ _ _ _ Hturn).
Qed.

(** With nothing on the queue the dispatcher waits. *)
Lemma read_updates_waits self w :
  queue w = [] ->
  read_updates self w
  = (Blocked, with_trace (trace w ++ [Log DEBUG "Reading from event queue" []]) w).
Proof.
  intros Hq. unfold read_updates. rewrite Hq. cbn [length read_loop].
  unfold read_turn, mbind at 1, M_bind at 1, try_finally.
  rewrite bind_log. unfold mbind at 1, M_bind at 1, queue_get.
  cbn [queue with_trace]. rewrite Hq. reflexivity.
Qed.




Lemma process_update_calls_handler self event_type resource_type resource
    metadata name namespace h w :
  getitem resource "metadata" = Return metadata ->
  getitem metadata "name" = Return name ->
  get metadata "namespace" = Return namespace ->
  lookup_handler (_handlers self) resource_type (looked_up event_type) = Return h ->
  _process_update self event_type resource_type resource w
  = try_except
      (call_handler h (namespace, name) resource;;
       log DEBUG "Handled %s for %s: %s"
           [AVal event_type; AVal resource_type; ATuple [namespace; name]])
      (only_key_error
         (log EXCEPTION "Invalid %s: %s" [AVal resource_type; AJson resource]))
      (with_trace
         (trace w ++ Log DEBUG "Processing '%s' for kind '%s'"
                         [AVal event_type; AVal resource_type]
                     :: get_handler_events resource_type event_type)
         w).
Proof.
  intros Hmeta Hname Hns Hh. unfold _process_update. run.
  rewrite Hmeta. run. rewrite Hname. run. rewrite Hns. run.
  unfold mbind at 1, M_bind at 1, try_except at 1.
  unfold mbind at 1, M_bind at 1. rewrite get_handler_run, Hh.
  unfold mret, M_ret, with_trace. cbn [queue cache net trace].
  rewrite <- !app_assoc. reflexivity.
Qed.

(** What [_process_update] comes to once the handler has been called:
    [KeyError] is caught and logged, any other exception goes up. *)
Lemma process_update_handler_outcome self event_type resource_type resource
    metadata name namespace h raised c w :
  getitem resource "metadata" = Return metadata ->
  getitem metadata "name" = Return name ->
  get metadata "namespace" = Return namespace ->
  lookup_handler (_handlers self) resource_type (looked_up event_type) = Return h ->
  h (namespace, name) resource (cache w) = (raised, c) ->
  let after evs :=
    with_cache c
      (with_trace
         (trace w ++ Log DEBUG "Processing '%s' for kind '%s'"
                         [AVal event_type; AVal resource_type]
                     :: get_handler_events resource_type event_type ++ evs)
         w) in
  _process_update self event_type resource_type resource w
  = match raised with
    | None =>
        (Return tt,
         after [Log DEBUG "Handled %s for %s: %s"
                    [AVal event_type; AVal resource_type; ATuple [namespace; name]]])
    | Some KeyError =>
        (Return tt,
         after [Log EXCEPTION "Invalid %s: %s" [AVal resource_type; AJson resource]])
    | Some e => (Raise e, after [])
    end.
Proof.
  intros Hmeta Hname Hns Hh Hcall after.
  rewrite (process_update_calls_handler _ _ _ _ _ _ _ _ _ Hmeta Hname Hns Hh).
  unfold try_except, mbind, M_bind, call_handler. cbn [cache with_trace].
  rewrite Hcall. unfold after.
  destruct raised as [[]|]; cbn [only_key_error];
    unfold log, emit, with_cache, with_trace; cbn [queue cache net trace];
    rewrite <- ?app_assoc, ?app_nil_r; reflexivity.
Qed.

(** A handler that raises [KeyError]: the dispatcher catches it, logs
    "Invalid <resource type>" with the resource, is done with the item, and
    [read_updates] goes on as it would on the rest of the queue. *)
Lemma read_updates_handler_KeyError self event_type resource_type resource
    metadata name namespace h c rest w :
  queue w = (event_type, resource_type, resource) :: rest ->
  getitem resource "metadata" = Return metadata ->
  getitem metadata "name" = Return name ->
  get metadata "namespace" = Return namespace ->
  lookup_handler (_handlers self) resource_type (looked_up event_type) = Return h ->
  h (namespace, name) resource (cache w) = (Some KeyError, c) ->
  let w' :=
    handled event_type resource_type resource rest c
      (Log EXCEPTION "Invalid %s: %s" [AVal resource_type; AJson resource]
       :: finally_events rest) w in
  read_turn self w = (Return tt, w')
  /\ read_updates self w = read_updates self w'
  /\ queue w' = rest.
Proof.
  intros Hq Hmeta Hname Hns Hh Hraise w'.
  assert (Hturn : read_turn self w = (Return tt, w')).
  { rewrite (read_turn_first _ _ _ _ _ _ Hq).
    unfold try_finally, try_except.
    rewrite (process_update_handler_outcome _ _ _ _ _ _ _ _ _ _
               (taken event_type resource_type resource rest w)
               Hmeta Hname Hns Hh Hraise).
    rewrite read_finally_run.
    unfold w', handled, taken, with_cache, with_queue, with_trace.
    cbn [queue cache net trace]. same_trace. reflexivity. }
  split; [exact Hturn|]. split; [|reflexivity].
  apply (read_updates_next _ _ rest _ _ Hq Hturn). reflexivity.
Qed.

(** An exception of any other class raised by the handler is caught
    nowhere: the [finally] clause runs and [read_updates] is over, with the
    rest of the queue still there. *)
Lemma read_updates_handler_other_error self event_type resource_type resource
    metadata name namespace h c e rest w :
  queue w = (event_type, resource_type, resource) :: rest ->
  getitem resource "metadata" = Return metadata ->
  getitem metadata "name" = Return name ->
  get metadata "namespace" = Return namespace ->
  lookup_handler (_handlers self) resource_type (looked_up event_type) = Return h ->
  h (namespace, name) resource (cache w) = (Some e, c) ->
  e <> KeyError ->
  read_updates self w
  = (Raise e, handled event_type resource_type resource rest c (finally_events rest) w).
Proof.
  intros Hq Hmeta Hname Hns Hh Hraise Hne.
  apply read_updates_raises.
  rewrite (read_turn_first _ _ _ _ _ _ Hq).
  unfold try_finally, try_except.
  rewrite (process_update_handler_outcome _ _ _ _ _ _ _ _ _ _
             (taken event_type resource_type resource rest w)
             Hmeta Hname Hns Hh Hraise).
  destruct e; try contradiction; cbn [only_key_error];
    rewrite read_finally_run;
    unfold handled, taken, with_cache, with_queue, with_trace;
    cbn [queue cache net trace]; same_trace; reflexivity.
Qed.

(** C2, as the code has it. The first update on the queue has a name, a
    handler is found for it, and the handler raises [e] (leaving the cache as
    [c]).
    - If [e] is [KeyError], the dispatcher catches it, logs "Invalid
      <resource type>" with the resource, is done with the item, and
      [read_updates] goes on as it would on the rest of the queue.
    - If [e] is of any other class, nothing catches it: after the [finally]
      clause [read_updates] raises [e], and the rest of the queue stays
      where it is. *)
Theorem dispatcher_catches_only_KeyError self event_type resource_type resource
    metadata name namespace h e c rest w :
  queue w = (event_type, resource_type, resource) :: rest ->
  getitem resource "metadata" = Return metadata ->
  getitem metadata "name" = Return name ->
  get metadata "namespace" = Return namespace ->
  lookup_handler (_handlers self) resource_type (looked_up event_type) = Return h ->
  h (namespace, name) resource (cache w) = (Some e, c) ->
  (e = KeyError ->
   let w' :=
     handled event_type resource_type resource rest c
       (Log EXCEPTION "Invalid %s: %s" [AVal resource_type; AJson resource]
        :: finally_events rest) w in
   read_turn self w = (Return tt, w')
   /\ read_updates self w = read_updates self w'
   /\ queue w' = rest)
  /\ (e <> KeyError ->
      read_updates self w
      = (Raise e,
         handled event_type resource_type resource rest c (finally_events rest) w)
      /\ queue (snd (read_updates self w)) = rest).
Proof.
  intros Hq Hmeta Hname Hns Hh Hraise. split.
  - intros ->. eapply read_updates_handler_KeyError; eassumption.
  - intros Hne.
    rewrite (read_updates_handler_other_error _ _ _ _ _ _ _ _ _ _ _ _
               Hq Hmeta Hname Hns Hh Hraise Hne).
    split; reflexivity.
Qed.

(** A handler that returns: the item is handled and the loop goes on. *)
Lemma dispatcher_handles_update self event_type resource_type resource
    metadata name namespace h c rest w :
  queue w = (event_type, resource_type, resource) :: rest ->
  getitem resource "metadata" = Return metadata ->
  getitem metadata "name" = Return name ->
  get metadata "namespace" = Return namespace ->
  lookup_handler (_handlers self) resource_type (looked_up event_type) = Return h ->
  h (namespace, name) resource (cache w) = (None, c) ->
  read_updates self w
  = read_updates self
      (handled event_type resource_type resource rest c
         (Log DEBUG "Handled %s for %s: %s"
              [AVal event_type; AVal resource_type; ATuple [namespace; name]]
          :: finally_events rest) w).
Proof.
  intros Hq Hmeta Hname Hns Hh Hcall.
  apply (read_updates_next _ _ rest _ _ Hq); [|reflexivity].
  rewrite (read_turn_first _ _ _ _ _ _ Hq).
  unfold try_finally, try_except.
  rewrite (process_update_handler_outcome _ _ _ _ _ _ _ _ _ _
             (taken event_type resource_type resource rest w)
             Hmeta Hname Hns Hh Hcall).
  rewrite read_finally_run.
  unfold handled, taken, with_cache, with_queue, with_trace.
  cbn [queue cache net trace]. same_trace. reflexivity.
Qed.

(** ** Start-up *)

Lemma store_all eps : forall w,
  for_each eps (fun ep => cache_store (workload_id ep) (ep_labels ep)) w
  = (Return tt,
     with_trace (trace w ++ seeding_events eps) (with_cache (seed eps (cache w)) w)).
Proof.
  induction eps as [|ep eps IH]; intros w.
  - cbn. unfold with_trace, with_cache. rewrite app_nil_r. now destruct w.
  - cbn [for_each]. unfold mbind, M_bind. cbn [cache_store]. rewrite IH.
    unfold with_trace, with_cache; cbn. now rewrite <- app_assoc.
Qed.

Lemma seed_app eps eps' c : seed (eps ++ eps') c = seed eps' (seed eps c).
Proof. apply foldl_app. Qed.

Lemma seed_lookup_other eps : forall c k,
  ~ In k (map workload_id eps) -> seed eps c !! k = c !! k.
Proof.
  induction eps as [|ep eps IH]; intros c k Hk; [reflexivity|].
  change (seed (ep :: eps) c) with (seed eps (<[workload_id ep := ep_labels ep]> c)).
  cbn [map In] in Hk. rewrite IH by tauto. apply lookup_insert_ne. tauto.
Qed.

(** With one endpoint per workload, the cache has the labels of each under
    its workload id. *)
Lemma seed_lookup eps ep c :
  List.NoDup (map workload_id eps) -> In ep eps ->
  seed eps c !! workload_id ep = Some (ep_labels ep).
Proof.
  intros Hnd Hin. apply in_split in Hin as [l1 [l2 ->]].
  rewrite map_app in Hnd. cbn in Hnd. apply NoDup_remove_2 in Hnd.
  rewrite seed_app.
  change (seed (ep :: l2) (seed l1 c))
    with (seed l2 (<[workload_id ep := ep_labels ep]> (seed l1 c))).
  rewrite seed_lookup_other.
  - apply lookup_insert_eq.
  - intros Hin. apply Hnd. apply in_or_app. now right.
Qed.

Lemma load_cache_run self eps w :
  get_endpoints (_client self) "k8s" = inr eps ->
  load_cache self w
  = (Return tt,
     with_trace
       (trace w ++ GetEndpoints "k8s" :: seeding_events eps ++ [Log INFO "Loaded cache" []])
       (with_cache (seed eps (cache w)) w)).
Proof.
  intros Heps. unfold load_cache. run. rewrite Heps. run.
  erewrite bind_return; [|apply store_all]. rewrite log_run.
  unfold with_trace, with_cache; cbn [queue cache net trace]. same_trace. reflexivity.
Qed.

Lemma start_workers_run self w :
  start_workers self w = (Return tt, with_trace (trace w ++ start_events) w).
Proof.
  unfold start_workers, start_events, thread_start. cbn [for_each flat_map app].
  unfold mbind, M_bind, log, emit, mret, M_ret, with_trace; cbn.
  rewrite <- !app_assoc. reflexivity.
Qed.

(** C8. When the two calls on the policy store return, [run] stores the
    labels of every endpoint the store lists under the endpoint's workload
    id, and only then starts the three worker threads, and only then enters
    [read_updates]: the dispatcher starts in the world [started], whose
    cache is the seeded one, whose queue is untouched, and whose trace has
    the cache stores before the first thread start and no item taken. *)
Theorem run_seeds_cache_before_workers self eps w :
  set_policy_tier_metadata (_client self) NET_POL_TIER_NAME (VDict [("order", VInt 50)])
  = None ->
  get_endpoints (_client self) "k8s" = inr eps ->
  let seeded :=
    with_trace
      (trace w ++ SetTier NET_POL_TIER_NAME (VDict [("order", VInt 50)])
                  :: GetEndpoints "k8s"
                  :: seeding_events eps ++ [Log INFO "Loaded cache" []])
      (with_cache (seed eps (cache w)) w) in
  let started := with_trace (trace seeded ++ start_events) seeded in
  run self w = read_updates self started
  /\ (load_cache self;; start_workers self;; read_updates self)
       (with_trace (trace w ++ [SetTier NET_POL_TIER_NAME (VDict [("order", VInt 50)])]) w)
     = (start_workers self;; read_updates self) seeded
  /\ cache started = seed eps (cache w)
  /\ queue started = queue w
  /\ (List.NoDup (map workload_id eps) ->
      forall ep, In ep eps -> cache started !! workload_id ep = Some (ep_labels ep))
  /\ (exists t, trace (snd (run self w)) = trace started ++ t).
Proof.
  intros Htier Heps seeded started.
  assert (Hload : (load_cache self;; start_workers self;; read_updates self)
       (with_trace (trace w ++ [SetTier NET_POL_TIER_NAME (VDict [("order", VInt 50)])]) w)
     = (start_workers self;; read_updates self) seeded).
  { erewrite bind_return; [|apply (load_cache_run _ eps); exact Heps].
    unfold seeded, with_trace, with_cache; cbn [queue cache net trace].
    same_trace. reflexivity. }
  assert (Hrun : run self w = read_updates self started).
  { unfold run. run. rewrite Htier. run. rewrite Hload.
    erewrite bind_return; [|apply start_workers_run]. reflexivity. }
  split; [exact Hrun|]. split; [exact Hload|].
  split; [reflexivity|]. split; [reflexivity|]. split.
  - intros Hnd ep Hin. apply seed_lookup; assumption.
  - rewrite Hrun. apply (grows_read_updates self started).
Qed.

(** ** The loop bounds are never reached *)

Lemma in_time_mret {A} (a : A) : in_time (mret a).
Proof. intros w. discriminate. Qed.

Lemma in_time_raise {A} e : in_time (@raise A e).
Proof. intros w. discriminate. Qed.

Lemma in_time_lift {A} (o : outcome A) : o <> OutOfFuel -> in_time (lift o).
Proof. intros Ho w. exact Ho. Qed.

Lemma in_time_emit ev : in_time (emit ev).
Proof. intros w. discriminate. Qed.

Lemma in_time_log lvl fmt args : in_time (log lvl fmt args).
Proof. intros w. discriminate. Qed.

Lemma in_time_queue_put u : in_time (queue_put u).
Proof. intros w. unfold queue_put. destruct (_ && _); discriminate. Qed.

Lemma in_time_queue_get : in_time queue_get.
Proof. intros w. unfold queue_get. destruct (queue w); discriminate. Qed.

Lemma in_time_queue_empty : in_time queue_empty.
Proof. intros w. discriminate. Qed.

Lemma in_time_cache_store key l : in_time (cache_store key l).
Proof. intros w. discriminate. Qed.

Lemma in_time_session_get req : in_time (session_get req).
Proof.
  intros w. unfold session_get. destruct (net w) as [|[resp|e] rest]; discriminate.
Qed.

Lemma in_time_call_handler h key resource : in_time (call_handler h key resource).
Proof.
  intros w. unfold call_handler.
  destruct (h key resource (cache w)) as [[e|] c]; discriminate.
Qed.

Lemma in_time_bind {A B} (m : M A) (k : A -> M B) :
  in_time m -> (forall a, in_time (k a)) -> in_time (m ≫= k).
Proof.
  intros Hm Hk w. specialize (Hm w). unfold mbind, M_bind.
  destruct (m w) as [[a|e| |] w']; cbn in *; try discriminate; [apply Hk|contradiction].
Qed.

Lemma in_time_try_except {A} (body : M A) handles :
  in_time body -> (forall e h, handles e = Some h -> in_time h) ->
  in_time (try_except body handles).
Proof.
  intros Hb Hh w. specialize (Hb w). unfold try_except.
  destruct (body w) as [[a|e| |] w']; cbn in *; try discriminate; [|contradiction].
  destruct (handles e) as [h|] eqn:E; [apply (Hh e h E)|discriminate].
Qed.

Lemma in_time_try_finally {A} (body : M A) fin :
  in_time body -> in_time fin -> in_time (try_finally body fin).
Proof.
  intros Hb Hf w. specialize (Hb w). unfold try_finally.
  destruct (body w) as [[a|e| |] w']; cbn in *; try discriminate; [| |contradiction].
  - specialize (Hf w'). destruct (fin w') as [[[]|e'| |] w''];
      cbn in *; try discriminate; contradiction.
  - specialize (Hf w'). destruct (fin w') as [[[]|e'| |] w''];
      cbn in *; try discriminate; contradiction.
Qed.

Lemma in_time_for_each {A} (xs : list A) body :
  (forall x, in_time (body x)) -> in_time (for_each xs body).
Proof.
  intros Hb. induction xs as [|x xs IH]; cbn [for_each].
  - apply in_time_mret.
  - apply in_time_bind; auto.
Qed.

Lemma in_time_only_key_error {A} (clause : M A) :
  in_time clause -> forall e h, only_key_error clause e = Some h -> in_time h.
Proof. intros Hc e h. destruct e; cbn; intros [= <-]; exact Hc. Qed.

(** The operations on values raise or return. *)
Lemma getitem_in_time v k : getitem v k <> OutOfFuel.
Proof. destruct v; cbn; try discriminate. destruct (assoc k items); discriminate. Qed.

Lemma get_default_in_time v k d : get_default v k d <> OutOfFuel.
Proof. destruct v; cbn; try discriminate. destruct (assoc k items); discriminate. Qed.

Lemma get_in_time v k : get v k <> OutOfFuel.
Proof. apply get_default_in_time. Qed.

Lemma py_len_in_time v : py_len v <> OutOfFuel.
Proof. destruct v; discriminate. Qed.

Lemma py_iter_in_time v : py_iter v <> OutOfFuel.
Proof. destruct v; discriminate. Qed.

Lemma resp_json_in_time resp : resp_json resp <> OutOfFuel.
Proof. unfold resp_json. destruct (body resp); discriminate. Qed.

Lemma json_loads_in_time l : json_loads l <> OutOfFuel.
Proof. destruct l; discriminate. Qed.

Lemma lookup_handler_in_time hs resource_type event_type :
  lookup_handler hs resource_type event_type <> OutOfFuel.
Proof.
  unfold lookup_handler. destruct (negb _); [discriminate|].
  destruct resource_type, event_type; try discriminate.
  destruct (hs !! _); discriminate.
Qed.

Create HintDb in_time.
#[local] Hint Resolve in_time_mret in_time_raise in_time_emit in_time_log
  in_time_queue_put in_time_queue_get in_time_queue_empty in_time_cache_store
  in_time_session_get in_time_call_handler getitem_in_time get_default_in_time
  get_in_time py_len_in_time py_iter_in_time resp_json_in_time json_loads_in_time
  lookup_handler_in_time : in_time.

Ltac in_time_steps :=
  repeat match goal with
    | |- in_time (_ ≫= _) => apply in_time_bind; [|intros ?]
    | |- in_time (lift (match ?x with _ => _ end)) => destruct x
    | |- in_time (lift _) => apply in_time_lift; solve [auto with in_time | discriminate]
    | |- in_time (if ?b then _ else _) => destruct b
    | |- in_time (match ?x with _ => _ end) => destruct x
    | |- in_time (for_each _ _) => apply in_time_for_each; intros ?
    | |- in_time (try_except _ (only_key_error _)) =>
        apply in_time_try_except; [|apply in_time_only_key_error]
    | |- in_time (try_finally _ _) => apply in_time_try_finally
    | |- in_time _ => solve [auto with in_time]
    end.

Lemma in_time_api_get self path streamed rv : in_time (_api_get self path streamed rv).
Proof. unfold _api_get. in_time_steps. Qed.

Lemma in_time_sync_resources self resource_type :
  in_time (_sync_resources self resource_type).
Proof. unfold _sync_resources. pose proof in_time_api_get. in_time_steps. Qed.

Lemma in_time_watch_lines ls : forall rv, in_time (watch_lines ls rv).
Proof.
  induction ls as [|l ls IH]; intros rv; [apply in_time_mret|].
  destruct l; cbn [watch_lines]; auto; in_time_steps.
Qed.

Lemma in_time_get_handler self resource_type event_type :
  in_time (get_handler self resource_type event_type).
Proof. unfold get_handler. in_time_steps. Qed.

Lemma in_time_process_update self event_type resource_type resource :
  in_time (_process_update self event_type resource_type resource).
Proof. unfold _process_update. pose proof in_time_get_handler. in_time_steps. Qed.

Lemma in_time_read_turn self : in_time (read_turn self).
Proof.
  unfold read_turn, task_done. apply in_time_try_finally; [|in_time_steps].
  apply in_time_bind; [auto with in_time|intros _].
  apply in_time_bind;
    [auto with in_time|intros [[event_type resource_type] resource]].
  pose proof in_time_process_update. in_time_steps.
Qed.

(** With more turns allowed than the server has replies, the watch loop ends
    by an exception or waits for a reply. *)
Lemma watch_loop_in_time self path fuel : forall rv w,
  (length (net w) < fuel)%nat -> fst (watch_loop fuel self path rv w) <> OutOfFuel.
Proof.
  induction fuel as [|fuel IH]; intros rv w Hfuel; [lia|].
  rewrite watch_loop_unfold. unfold mbind at 1, M_bind at 1.
  rewrite api_get_run.
  destruct (net w) as [|[resp|e] rest] eqn:Hnet; try discriminate.
  run. destruct (negb _); [discriminate|].
  unfold mbind at 1, M_bind at 1.
  match goal with
  | |- context [watch_lines ?ls ?v ?w1] =>
      pose proof (in_time_watch_lines ls v w1) as Hin;
      pose proof (same_net_watch_lines ls v w1) as Hsame;
      destruct (watch_lines ls v w1) as [[rv'|e| |] w']
  end; try discriminate; [|contradiction].
  destruct (broken resp); [discriminate|]. apply IH.
  unfold same_net in Hsame. cbn in Hsame, Hfuel. rewrite Hsame. lia.
Qed.

Lemma in_time_watch_resource self resource_type rv :
  in_time (_watch_resource self resource_type rv).
Proof.
  unfold _watch_resource.
  apply in_time_bind; [in_time_steps|intros path].
  apply in_time_bind; [in_time_steps|intros _].
  intros w. apply watch_loop_in_time. lia.
Qed.

(** [_watch_resource] has no [return]. *)
Lemma watch_resource_never_returns self resource_type rv w :
  fst (_watch_resource self resource_type rv w) <> Return tt.
Proof.
  unfold _watch_resource. destruct (WATCH_URLS !! resource_type); run;
    [apply watch_loop_never_returns|discriminate].
Qed.

#[local] Instance net_le_preorder : PreOrder net_le.
Proof. split; [intros w; unfold net_le; lia | intros w1 w2 w3; unfold net_le; lia]. Qed.

Lemma same_net_le {A} (m : M A) : preserves same_net m -> preserves net_le m.
Proof. intros Hm w. unfold net_le. rewrite (Hm w). lia. Qed.

Lemma net_le_emit ev : preserves net_le (emit ev).
Proof. intros w. unfold net_le. cbn. lia. Qed.

Lemma net_le_log lvl fmt args : preserves net_le (log lvl fmt args).
Proof. apply net_le_emit. Qed.

Lemma net_le_queue_put u : preserves net_le (queue_put u).
Proof. apply same_net_le, same_net_queue_put. Qed.

Lemma net_le_session_get req : preserves net_le (session_get req).
Proof.
  intros w. unfold net_le, session_get.
  destruct (net w) as [|[resp|e] rest] eqn:E; cbn; rewrite ?E; cbn; lia.
Qed.

#[local] Hint Resolve net_le_preorder net_le_emit net_le_log net_le_queue_put
  net_le_session_get : preserves.

Lemma net_le_api_get self path streamed rv : preserves net_le (_api_get self path streamed rv).
Proof. unfold _api_get. preserves_steps. Qed.

Lemma net_le_watch_lines ls rv : preserves net_le (watch_lines ls rv).
Proof. apply same_net_le, same_net_watch_lines. Qed.

Lemma net_le_watch_loop self path fuel :
  forall rv, preserves net_le (watch_loop fuel self path rv).
Proof.
  induction fuel as [|fuel IH]; intros rv; cbn [watch_loop];
    [apply preserves_out_of_fuel; typeclasses eauto|].
  pose proof net_le_api_get. pose proof net_le_watch_lines. preserves_steps.
Qed.

Lemma net_le_watch_resource self resource_type rv :
  preserves net_le (_watch_resource self resource_type rv).
Proof. unfold _watch_resource. pose proof net_le_watch_loop. preserves_steps. Qed.

(** A resync that gets past the lookup of its URL and is not left waiting
    has used a reply. *)
Lemma sync_resources_uses_reply self resource_type w :
  fst (_sync_resources self resource_type w) = Raise KeyError
  \/ fst (_sync_resources self resource_type w) = Blocked
  \/ (length (net (snd (_sync_resources self resource_type w))) < length (net w))%nat.
Proof.
  destruct (GET_URLS !! resource_type) as [template|] eqn:Hurl.
  - destruct (net w) as [|[resp|e] rest] eqn:Hnet.
    + right; left. unfold _sync_resources. run. rewrite Hurl. run.
      unfold mbind, M_bind. rewrite api_get_run. cbn [net with_trace].
      now rewrite Hnet.
    + right; right. rewrite (sync_resources_start _ _ _ _ _ _ Hurl Hnet).
      match goal with
      | |- context [snd (?m ?w1)] =>
          assert (Hsame : preserves same_net m)
            by (preserves_steps);
          rewrite (Hsame w1)
      end.
      cbn. lia.
    + right; right. unfold _sync_resources. run. rewrite Hurl. run.
      unfold mbind, M_bind. rewrite api_get_run. cbn [net with_trace].
      rewrite Hnet. cbn. lia.
  - left. unfold _sync_resources. run. rewrite Hurl. run. reflexivity.
Qed.

(** A resync and watch never return; when they raise an exception, other
    than a [KeyError], a reply has been used. *)
Lemma sync_and_watch_outcome self resource_type w r w1 :
  (resource_version ← _sync_resources self resource_type;
   _watch_resource self resource_type resource_version) w = (r, w1) ->
  r <> Return tt
  /\ (forall e, r = Raise e ->
        e = KeyError \/ (length (net w1) < length (net w))%nat).
Proof.
  unfold mbind, M_bind.
  pose proof (sync_resources_uses_reply self resource_type w) as Hsync.
  destruct (_sync_resources self resource_type w) as [[rv|e| |] w0]; cbn in Hsync.
  - pose proof (watch_resource_never_returns self resource_type rv w0) as Hnever.
    pose proof (net_le_watch_resource self resource_type rv w0) as Hle.
    unfold net_le in Hle. intros Heq. rewrite Heq in Hnever, Hle. cbn in Hnever, Hle.
    split; [exact Hnever|]. intros e _. right.
    destruct Hsync as [|[|]]; try discriminate. lia.
  - intros [= <- <-]. split; [discriminate|]. intros e' [= <-].
    destruct Hsync as [[= ->]|[|]]; try discriminate; [now left|now right].
  - intros [= <- <-]. split; discriminate.
  - intros [= <- <-]. split; discriminate.
Qed.

(** A turn of [_manage_resource] that is followed by another has used a
    reply. *)
Lemma manage_turn_uses_reply self resource_type w w' :
  manage_turn self resource_type w = (Return tt, w') ->
  (length (net w') < length (net w))%nat.
Proof.
  destruct ((resource_version ← _sync_resources self resource_type;
             _watch_resource self resource_type resource_version) w)
    as [r w1] eqn:Hbody.
  destruct (sync_and_watch_outcome _ _ _ _ _ Hbody) as [Hnever Hraise].
  destruct r as [[]|e| |].
  - contradiction.
  - destruct (except_event resource_type e) as [ev|] eqn:Hev.
    + rewrite (manage_turn_caught _ _ _ _ _ _ Hbody Hev). intros [= <-]. cbn.
      destruct (Hraise e eq_refl) as [->|Hlt]; [discriminate Hev|exact Hlt].
    + rewrite (manage_turn_uncaught _ _ _ _ _ Hbody Hev). discriminate.
  - unfold manage_turn, try_finally, try_except. rewrite Hbody. discriminate.
  - unfold manage_turn, try_finally, try_except. rewrite Hbody. discriminate.
Qed.

Lemma in_time_manage_turn self resource_type : in_time (manage_turn self resource_type).
Proof.
  unfold manage_turn. apply in_time_try_finally; [|in_time_steps].
  apply in_time_try_except.
  - pose proof in_time_sync_resources. pose proof in_time_watch_resource. in_time_steps.
  - intros e h. destruct e; cbn; intros [= <-]; apply in_time_log.
Qed.

Lemma manage_loop_in_time self resource_type fuel : forall w,
  (length (net w) < fuel)%nat -> fst (manage_loop fuel self resource_type w) <> OutOfFuel.
Proof.
  induction fuel as [|fuel IH]; intros w Hfuel; [lia|].
  cbn [manage_loop]. unfold mbind, M_bind.
  pose proof (in_time_manage_turn self resource_type w) as Hin.
  pose proof (manage_turn_uses_reply self resource_type w) as Huse.
  destruct (manage_turn self resource_type w) as [[[]|e| |] w'];
    cbn in Hin; try discriminate; [|contradiction].
  apply IH. specialize (Huse w' eq_refl). lia.
Qed.

(** A turn of [read_updates] that is followed by another has taken an item. *)
Lemma read_turn_takes_item self w w' :
  read_turn self w = (Return tt, w') -> (length (queue w') < length (queue w))%nat.
Proof.
  destruct (queue w) as [|[[event_type resource_type] resource] rest] eqn:Hq.
  - intros Hturn.
    assert (Hblocked : fst (read_turn self w) = Blocked).
    { unfold read_turn, try_finally. rewrite bind_log.
      unfold mbind at 1, M_bind at 1, queue_get. cbn [queue with_trace].
      now rewrite Hq. }
    rewrite Hturn in Hblocked. discriminate.
  - rewrite (read_turn_first _ _ _ _ _ _ Hq).
    pose (same_queue := fun w1 w2 : world => queue w2 = queue w1).
    assert (Hpre : PreOrder same_queue).
    { split; [intros w1; reflexivity|intros w1 w2 w3; unfold same_queue; congruence]. }
    assert (Hturn : preserves same_queue
              (try_finally
                 (try_except (_process_update self event_type resource_type resource)
                    (only_key_error
                       (log EXCEPTION "Invalid update: %s"
                            [ATuple [event_type; resource_type; resource]])))
                 (task_done;;
                  empty ← queue_empty;
                  if (empty : bool) then log INFO "Emptied the event queue" []
                  else mret tt))).
    { assert (Hemit : forall ev, preserves same_queue (emit ev)) by (intros ev w1; reflexivity).
      assert (Hlog : forall l f a, preserves same_queue (log l f a)) by (intros l f a w1; reflexivity).
      assert (Hcall : forall h k r, preserves same_queue (call_handler h k r)).
      { intros h k r w1. unfold call_handler.
        destruct (h k r (cache w1)) as [raised c]. reflexivity. }
      unfold _process_update, get_handler, task_done. preserves_steps. }
    intros Heq. specialize (Hturn (taken event_type resource_type resource rest w)).
    rewrite Heq in Hturn. unfold same_queue in Hturn. cbn in Hturn.
    rewrite Hturn. cbn. lia.
Qed.

Lemma read_loop_in_time self fuel : forall w,
  (length (queue w) < fuel)%nat -> fst (read_loop fuel self w) <> OutOfFuel.
Proof.
  induction fuel as [|fuel IH]; intros w Hfuel; [lia|].
  cbn [read_loop]. unfold mbind, M_bind.
  pose proof (in_time_read_turn self w) as Hin.
  pose proof (read_turn_takes_item self w) as Htake.
  destruct (read_turn self w) as [[[]|e| |] w'];
    cbn in Hin; try discriminate; [|contradiction].
  apply IH. specialize (Htake w' eq_refl). lia.
Qed.

(** Any bound above the number of replies gives the same run. *)
Lemma manage_loop_bound_irrelevant self resource_type fuel : forall fuel' w,
  (length (net w) < fuel)%nat -> (length (net w) < fuel')%nat ->
  manage_loop fuel self resource_type w = manage_loop fuel' self resource_type w.
Proof.
  induction fuel as [|fuel IH]; intros fuel' w Hfuel Hfuel'; [lia|].
  destruct fuel' as [|fuel']; [lia|].
  cbn [manage_loop]. unfold mbind, M_bind.
  pose proof (manage_turn_uses_reply self resource_type w) as Huse.
  destruct (manage_turn self resource_type w) as [[[]|e| |] w']; try reflexivity.
  specialize (Huse w' eq_refl). apply IH; lia.
Qed.

(** The worker after an exception of one of the four classes it catches:
    the exception is logged, the worker sleeps a second, and what it does
    from then on is what [_manage_resource] does from its start, a resync
    first. *)
Lemma manage_resource_restarts self resource_type e ev w w' :
  (resource_version ← _sync_resources self resource_type;
   _watch_resource self resource_type resource_version) w = (Raise e, w') ->
  except_event resource_type e = Some ev ->
  _manage_resource self resource_type w
  = _manage_resource self resource_type
      (with_trace (trace w' ++ ev :: restart_events resource_type) w').
Proof.
  intros Hbody Hev. unfold _manage_resource, replies_bound.
  rewrite (manage_loop_restarts _ _ _ _ _ _ _ Hbody Hev).
  destruct (sync_and_watch_outcome _ _ _ _ _ Hbody) as [_ Hraise].
  destruct (Hraise e eq_refl) as [->|Hlt]; [discriminate Hev|].
  apply manage_loop_bound_irrelevant; cbn [net with_trace]; lia.
Qed.

Lemma manage_loop_never_returns self resource_type fuel :
  forall w, fst (manage_loop fuel self resource_type w) <> Return tt.
Proof.
  induction fuel as [|fuel IH]; intros w; [discriminate|].
  cbn [manage_loop]. unfold mbind, M_bind.
  destruct (manage_turn self resource_type w) as [[[]|e| |] w'];
    try discriminate. apply IH.
Qed.

Lemma read_loop_never_returns self fuel :
  forall w, fst (read_loop fuel self w) <> Return tt.
Proof.
  induction fuel as [|fuel IH]; intros w; [discriminate|].
  cbn [read_loop]. unfold mbind, M_bind.
  destruct (read_turn self w) as [[[]|e| |] w']; try discriminate. apply IH.
Qed.

(** The worker of a resource type, its watch and the dispatcher, as
    modelled, end only the way the code can: by an exception, or never
    (waiting for the server or for the queue).  None returns, and the bound
    put on the turns of a loop is never what stops it. *)
Theorem loops_end_as_in_the_code self resource_type rv w :
  (fst (_manage_resource self resource_type w) <> OutOfFuel
   /\ fst (_manage_resource self resource_type w) <> Return tt)
  /\ (fst (_watch_resource self resource_type rv w) <> OutOfFuel
      /\ fst (_watch_resource self resource_type rv w) <> Return tt)
  /\ (fst (read_updates self w) <> OutOfFuel
      /\ fst (read_updates self w) <> Return tt).
Proof.
  repeat split.
  - apply manage_loop_in_time. lia.
  - apply manage_loop_never_returns.
  - apply in_time_watch_resource.
  - apply watch_resource_never_returns.
  - apply read_loop_in_time. lia.
  - apply read_loop_never_returns.
Qed.

(** ** More on the handler table *)

Lemma add_handler_run self T E h w :
  add_handler self T E h w
  = (Return (with_handlers (<[(T, E) := h]> (_handlers self)) self),
     with_trace (trace w ++ [Log INFO "Setting %s %s handler: %s"
                                 [AStr T; AStr E; AFun]]) w).
Proof. reflexivity. Qed.

Lemma get_handler_strings self T E w :
  fst (get_handler self (VStr T) (VStr E) w)
  = match _handlers self !! lookup_key T E with
    | Some h => Return h
    | None => Raise KeyError
    end.
Proof.
  rewrite get_handler_outcome. unfold looked_up, lookup_key; cbn.
  destruct (String.eqb E TYPE_MODIFIED); reflexivity.
Qed.

(** X1. [add_handler] and [get_handler] go together as insert and lookup:
    the handler added for a resource type and an event type other than
    Modified is the one resolved for that pair; a handler added for Added is
    also the one resolved for Modified; a second [add_handler] for the same
    pair replaces the first; and every pair that is looked up under another
    key resolves as before. *)
Theorem add_handler_then_get_handler self (T E : string) h w self' :
  fst (add_handler self T E h w) = Return self' ->
  (E <> TYPE_MODIFIED ->
   forall w', fst (get_handler self' (VStr T) (VStr E) w') = Return h)
  /\ (E = TYPE_ADDED ->
      forall w', fst (get_handler self' (VStr T) (VStr TYPE_MODIFIED) w') = Return h)
  /\ (forall h2 w1 w' self'',
        E <> TYPE_MODIFIED ->
        fst (add_handler self' T E h2 w1) = Return self'' ->
        fst (get_handler self'' (VStr T) (VStr E) w') = Return h2)
  /\ (forall (T2 E2 : string) w',
        lookup_key T2 E2 <> (T, E) ->
        fst (get_handler self' (VStr T2) (VStr E2) w')
        = fst (get_handler self (VStr T2) (VStr E2) w')).
Proof.
  rewrite add_handler_run. cbn [fst]. intros [= <-].
  split; [|split; [|split]].
  - intros HE w'. rewrite get_handler_strings. unfold lookup_key.
    apply String.eqb_neq in HE. rewrite HE. cbn. now rewrite lookup_insert_eq.
  - intros -> w'. rewrite get_handler_strings. unfold lookup_key.
    rewrite String.eqb_refl. cbn. now rewrite lookup_insert_eq.
  - intros h2 w1 w' self'' HE. rewrite add_handler_run. cbn [fst]. intros [= <-].
    rewrite get_handler_strings. unfold lookup_key.
    apply String.eqb_neq in HE. rewrite HE. cbn. now rewrite lookup_insert_eq.
  - intros T2 E2 w' Hne. rewrite !get_handler_strings. cbn.
    rewrite lookup_insert_ne by congruence. reflexivity.
Qed.

(** X2. A handler added for Modified is dead: whatever is asked of
    [get_handler] afterwards, with any resource type and event type, the
    answer is what it was before (Modified and Added being different
    strings). *)
Theorem handler_for_modified_is_never_resolved self (T : string) h w self' :
  TYPE_MODIFIED <> TYPE_ADDED ->
  fst (add_handler self T TYPE_MODIFIED h w) = Return self' ->
  forall resource_type event_type w',
    fst (get_handler self' resource_type event_type w')
    = fst (get_handler self resource_type event_type w').
Proof.
  intros Hne. rewrite add_handler_run. cbn [fst]. intros [= <-].
  intros resource_type event_type w'. rewrite !get_handler_outcome.
  unfold lookup_handler. destruct (negb _); [reflexivity|].
  destruct resource_type as [| | |r| |]; try reflexivity.
  unfold looked_up.
  destruct (eq_str event_type TYPE_MODIFIED) eqn:Heq.
  - cbn. rewrite lookup_insert_ne by congruence. reflexivity.
  - destruct event_type as [| | |e| |]; try reflexivity.
    cbn in Heq. apply String.eqb_neq in Heq.
    cbn. rewrite lookup_insert_ne by congruence. reflexivity.
Qed.

(** ** Making the agent *)

Section StartUp.
Context `{BootConstants}.

Lemma remove_newlines_no_newline s : no_newline (remove_newlines s).
Proof.
  unfold no_newline. induction s as [|c s IH]; cbn; [tauto|].
  destruct (Ascii.eqb_spec c "010"%char) as [->|Hc]; [exact IH|].
  cbn. intros [Heq|Hin]; [congruence|tauto].
Qed.

Lemma remove_newlines_id s : no_newline s -> remove_newlines s = s.
Proof.
  unfold no_newline. induction s as [|c s IH]; cbn; [reflexivity|].
  intros Hno. destruct (Ascii.eqb_spec c "010"%char) as [->|Hc]; [tauto|].
  rewrite IH; tauto.
Qed.

Lemma remove_newlines_app s t :
  remove_newlines (s +:+ t) = remove_newlines s +:+ remove_newlines t.
Proof.
  induction s as [|c s IH]; [reflexivity|].
  change (String c s +:+ t) with (String c (s +:+ t)).
  cbn [remove_newlines].
  destruct (Ascii.eqb c "010"%char); [exact IH|].
  change (String c (remove_newlines s) +:+ remove_newlines t)
    with (String c (remove_newlines s +:+ remove_newlines t)).
  now rewrite IH.
Qed.

Lemma string_app_empty s : s +:+ "" = s.
Proof.
  induction s as [|c s IH]; [reflexivity|].
  change (String c s +:+ "") with (String c (s +:+ "")). now rewrite IH.
Qed.

Lemma remove_newlines_chars s :
  list_ascii_of_string (remove_newlines s) = without_line_feeds s.
Proof.
  unfold without_line_feeds. induction s as [|c s IH]; [reflexivity|].
  cbn [remove_newlines list_ascii_of_string List.filter].
  destruct (Ascii.eqb c "010"%char); cbn [negb list_ascii_of_string];
    now rewrite IH.
Qed.

(** X3. [read_token_file] returns [None], after a warning, when the token
    file is not there; when it is, the token returned is the text of the
    file with every line feed dropped and nothing else: its characters are
    those of the text that are not line feeds, all of them and in the order
    of the text, whatever the number of lines.  So the token never has a
    line feed in it, a token written as one line (the token, then a line
    feed) is read back as it was written, and a text of several lines is
    read as its lines put end to end. *)
Theorem read_token_file_strips_line_feeds os w :
  (files os !! token_file_path = None ->
   fst (read_token_file os w) = Return None
   /\ In (Log WARNING "No ServiceAccount token found on disk" [])
         (trace (snd (read_token_file os w))))
  /\ (forall text, files os !! token_file_path = Some text ->
        exists token,
          fst (read_token_file os w) = Return (Some token)
          /\ list_ascii_of_string token = without_line_feeds text
          /\ no_newline token
          /\ (forall written, no_newline written ->
                text = written +:+ newline -> token = written)
          /\ (forall first second, no_newline first -> no_newline second ->
                text = first +:+ newline +:+ second +:+ newline ->
                token = first +:+ second)
          /\ (no_newline text -> token = text)).
Proof.
  unfold read_token_file. split.
  - intros ->. split; [reflexivity|]. run. cbn. rewrite !in_app_iff. cbn. tauto.
  - intros text ->. exists (remove_newlines text).
    split; [reflexivity|]. split; [apply remove_newlines_chars|].
    split; [apply remove_newlines_no_newline|]. split; [|split].
    + intros written Hno ->. rewrite remove_newlines_app.
      rewrite (remove_newlines_id written Hno). cbn. apply string_app_empty.
    + intros first second Hfirst Hsecond ->.
      rewrite !remove_newlines_app.
      rewrite (remove_newlines_id first Hfirst), (remove_newlines_id second Hsecond).
      cbn. now rewrite string_app_empty.
    + apply remove_newlines_id.
Qed.

Lemma read_token_file_run os w :
  exists t,
    read_token_file os w
    = (Return (remove_newlines <$> files os !! token_file_path),
       with_trace (trace w ++ t) w)
    /\ (files os !! token_file_path = None ->
        In (Log WARNING "No ServiceAccount token found on disk" []) t).
Proof.
  unfold read_token_file. destruct (files os !! token_file_path) as [text|].
  - eexists. split; [|discriminate]. run.
    unfold mret, M_ret, with_trace; cbn. rewrite <- app_assoc. reflexivity.
  - eexists. split.
    + run. unfold mret, M_ret, with_trace; cbn. rewrite <- app_assoc. reflexivity.
    + intros _. right. now left.
Qed.

Lemma bind_add_handler {B} self T E h (k : PolicyAgent -> M B) w :
  (add_handler self T E h ≫= k) w
  = k (with_handlers (<[(T, E) := h]> (_handlers self)) self)
      (with_trace (trace w ++ [Log INFO "Setting %s %s handler: %s"
                                  [AStr T; AStr E; AFun]]) w).
Proof. reflexivity. Qed.

Lemma init_run os client hs w :
  exists t,
    __init__ os client hs w
    = (Return (init_agent os client hs),
       with_trace (trace w ++ t) (with_cache ∅ (with_queue [] w)))
    /\ (files os !! token_file_path = None ->
        In (Log WARNING "No ServiceAccount token found on disk" []) t).
Proof.
  destruct (read_token_file_run os (with_cache ∅ (with_queue [] w))) as (t & Hrun & Hwarn).
  exists (t ++ [Log DEBUG "Using auth token: %s" [AVal (str_or_none (init_token os))];
                Log INFO "Setting %s %s handler: %s"
                    [AStr RESOURCE_TYPE_NETWORK_POLICY; AStr TYPE_ADDED; AFun];
                Log INFO "Setting %s %s handler: %s"
                    [AStr RESOURCE_TYPE_NETWORK_POLICY; AStr TYPE_DELETED; AFun];
                Log INFO "Setting %s %s handler: %s"
                    [AStr RESOURCE_TYPE_NAMESPACE; AStr TYPE_ADDED; AFun];
                Log INFO "Setting %s %s handler: %s"
                    [AStr RESOURCE_TYPE_NAMESPACE; AStr TYPE_DELETED; AFun];
                Log INFO "Setting %s %s handler: %s"
                    [AStr RESOURCE_TYPE_POD; AStr TYPE_ADDED; AFun];
                Log INFO "Setting %s %s handler: %s"
                    [AStr RESOURCE_TYPE_POD; AStr TYPE_DELETED; AFun]]).
  split; [|intros Hnone; apply in_or_app; left; auto].
  unfold __init__. unfold mbind at 1, M_bind at 1.
  rewrite (bind_return _ _ _ _ _ Hrun). run.
  repeat (rewrite bind_add_handler; cbv beta).
  unfold init_agent, init_token, init_handlers, with_handlers, mret, M_ret.
  cbn [k8s_api auth_token ca_crt_exists _client _handlers].
  unfold with_trace, with_cache, with_queue. cbn [queue cache net trace].
  repeat (progress (cbn [app]; rewrite <- ?app_assoc)).
  destruct (environ os !! "K8S_AUTH_TOKEN"); reflexivity.
Qed.

(** X4. The handler table of a new agent, when the three resource types
    are different strings and Deleted is neither Added nor Modified: for
    each resource type, Added and Modified both resolve to its add/update
    handler and Deleted to its delete handler; a pair whose key is none of
    the six (an Error event, another resource type) has no handler. *)
Theorem init_handler_table os client hs w self :
  RESOURCE_TYPE_NETWORK_POLICY <> RESOURCE_TYPE_NAMESPACE ->
  RESOURCE_TYPE_NETWORK_POLICY <> RESOURCE_TYPE_POD ->
  RESOURCE_TYPE_NAMESPACE <> RESOURCE_TYPE_POD ->
  TYPE_ADDED <> TYPE_DELETED ->
  TYPE_DELETED <> TYPE_MODIFIED ->
  fst (__init__ os client hs w) = Return self ->
  forall w',
    let resolve T E := fst (get_handler self (VStr T) (VStr E) w') in
    (resolve RESOURCE_TYPE_NETWORK_POLICY TYPE_ADDED = Return (add_update_network_policy hs)
     /\ resolve RESOURCE_TYPE_NETWORK_POLICY TYPE_MODIFIED
        = Return (add_update_network_policy hs)
     /\ resolve RESOURCE_TYPE_NETWORK_POLICY TYPE_DELETED = Return (delete_network_policy hs))
    /\ (resolve RESOURCE_TYPE_NAMESPACE TYPE_ADDED = Return (add_update_namespace hs)
        /\ resolve RESOURCE_TYPE_NAMESPACE TYPE_MODIFIED = Return (add_update_namespace hs)
        /\ resolve RESOURCE_TYPE_NAMESPACE TYPE_DELETED = Return (delete_namespace hs))
    /\ (resolve RESOURCE_TYPE_POD TYPE_ADDED = Return (add_update_pod hs)
        /\ resolve RESOURCE_TYPE_POD TYPE_MODIFIED = Return (add_update_pod hs)
        /\ resolve RESOURCE_TYPE_POD TYPE_DELETED = Return (delete_pod hs))
    /\ (forall T E : string,
          ~ In (lookup_key T E)
               [(RESOURCE_TYPE_NETWORK_POLICY, TYPE_ADDED);
                (RESOURCE_TYPE_NETWORK_POLICY, TYPE_DELETED);
                (RESOURCE_TYPE_NAMESPACE, TYPE_ADDED);
                (RESOURCE_TYPE_NAMESPACE, TYPE_DELETED);
                (RESOURCE_TYPE_POD, TYPE_ADDED);
                (RESOURCE_TYPE_POD, TYPE_DELETED)] ->
          resolve T E = Raise KeyError).
Proof.
  intros H1 H2 H3 H4 H5 Hinit w' resolve.
  destruct (init_run os client hs w) as (t & Hrun & _).
  rewrite Hrun in Hinit. cbn [fst] in Hinit. injection Hinit as <-.
  assert (Hadded : forall T, lookup_key T TYPE_ADDED = (T, TYPE_ADDED)).
  { intros T. unfold lookup_key. now destruct (String.eqb TYPE_ADDED TYPE_MODIFIED). }
  assert (Hmodified : forall T, lookup_key T TYPE_MODIFIED = (T, TYPE_ADDED)).
  { intros T. unfold lookup_key. now rewrite String.eqb_refl. }
  assert (Hdeleted : forall T, lookup_key T TYPE_DELETED = (T, TYPE_DELETED)).
  { intros T. unfold lookup_key. apply String.eqb_neq in H5. now rewrite H5. }
  unfold resolve.
  repeat split; try (rewrite get_handler_strings, ?Hadded, ?Hmodified, ?Hdeleted;
    cbn [_handlers init_agent]; unfold init_handlers;
    repeat (rewrite lookup_insert_ne by congruence);
    now rewrite lookup_insert_eq).
  intros T E Hnot. rewrite get_handler_strings.
  cbn [_handlers init_agent]. unfold init_handlers. cbn [In] in Hnot.
  repeat (rewrite lookup_insert_ne by (intros Heq; apply Hnot; rewrite <- Heq; tauto)).
  now rewrite lookup_empty.
Qed.

(** X5. The token of a new agent.  The environment variable
    [K8S_AUTH_TOKEN], when set, is the token, whatever the token file says;
    the file is read all the same, and its absence is warned about even
    then.  Without the variable the token is the text of the token file
    without its line feeds.  With neither, or with the variable set to the
    empty string, the requests of the agent carry no header at all. *)
Theorem init_auth_token os client hs w self :
  fst (__init__ os client hs w) = Return self ->
  (forall token, environ os !! "K8S_AUTH_TOKEN" = Some token ->
     auth_token self = Some token)
  /\ (forall text, environ os !! "K8S_AUTH_TOKEN" = None ->
        files os !! token_file_path = Some text ->
        auth_token self = Some (remove_newlines text))
  /\ (files os !! token_file_path = None ->
      In (Log WARNING "No ServiceAccount token found on disk" [])
         (trace (snd (__init__ os client hs w))))
  /\ ((environ os !! "K8S_AUTH_TOKEN" = Some ""
       \/ (environ os !! "K8S_AUTH_TOKEN" = None
           /\ files os !! token_file_path = None)) ->
      forall path streamed rv w',
        exists req,
          trace (snd (_api_get self path streamed rv w'))
          = trace w' ++ [Log DEBUG "Getting API resources '%s' at version '%s'. stream=%s"
                             [AStr path; AVal rv; ABool streamed];
                         Get req]
          /\ headers req = []).
Proof.
  intros Hinit. destruct (init_run os client hs w) as (t & Hrun & Hwarn).
  rewrite Hrun in Hinit |- *. cbn [fst snd] in *. injection Hinit as <-.
  cbn [auth_token init_agent]. unfold init_token.
  split; [|split; [|split]].
  - now intros token ->.
  - now intros text -> ->.
  - intros Hnone. cbn. apply in_or_app. right. auto.
  - intros Hcase path streamed rv w'.
    exists (request_of (init_agent os client hs) path streamed rv). split.
    + rewrite api_get_run. destruct (net w') as [|[resp|e] rest]; reflexivity.
    + cbn. unfold init_token.
      destruct Hcase as [->|[-> ->]]; reflexivity.
Qed.

Lemma string_app_assoc s t u : (s +:+ t) +:+ u = s +:+ (t +:+ u).
Proof.
  induction s as [|c s IH]; [reflexivity|].
  change (String c ((s +:+ t) +:+ u) = String c (s +:+ (t +:+ u))). now rewrite IH.
Qed.

(** X6. [configure_etc_hosts] adds one line to [/etc/hosts], after what the
    file held (nothing, if it was not there): the host of the Kubernetes
    service, taken from the environment or else 10.100.0.1, and the name
    kubernetes.default.  The environment and every other file stay as they
    were.  It adds the line whether or not it is there already: called
    again, it leaves the line twice. *)
Theorem configure_etc_hosts_appends os w os' :
  fst (configure_etc_hosts os w) = Return os' ->
  files os' !! "/etc/hosts"
  = Some (default "" (files os !! "/etc/hosts") +:+ hosts_line os)
  /\ environ os' = environ os
  /\ (forall path, path <> "/etc/hosts" -> files os' !! path = files os !! path)
  /\ (K8S_SERVICE_HOST ∉ dom (environ os) ->
      hosts_line os = "10.100.0.1    kubernetes.default" +:+ newline)
  /\ (forall w' os'',
        fst (configure_etc_hosts os' w') = Return os'' ->
        files os'' !! "/etc/hosts"
        = Some (default "" (files os !! "/etc/hosts") +:+ hosts_line os +:+ hosts_line os)).
Proof.
  unfold configure_etc_hosts. cbn [fst]. intros [= <-].
  cbn [files environ]. split; [|split; [|split; [|split]]].
  - rewrite lookup_insert_eq. reflexivity.
  - reflexivity.
  - intros path Hne. now rewrite lookup_insert_ne.
  - intros Hnot. unfold hosts_line. apply not_elem_of_dom in Hnot. now rewrite Hnot.
  - intros w' os''. cbn [fst files environ]. intros [= <-]. cbn [files].
    rewrite !lookup_insert_eq. cbn [default]. unfold hosts_line. cbn [environ].
    apply f_equal. apply string_app_assoc.
Qed.

End StartUp.

(** ** More on the watch *)

Lemma watch_lines_app ls1 ls2 : forall rv w,
  watch_lines (ls1 ++ ls2) rv w
  = (rv' ← watch_lines ls1 rv; watch_lines ls2 rv') w.
Proof.
  induction ls1 as [|l ls1 IH]; intros rv w; [reflexivity|].
  destruct l as [|raw|doc]; cbn [app watch_lines].
  - apply IH.
  - reflexivity.
  - unfold mbind, M_bind in *. unfold lift, log, emit, raise. cbn [json_loads].
    destruct (getitem doc "type") as [type| | |]; try reflexivity.
    destruct (eq_str type TYPE_ERROR); [reflexivity|].
    destruct (getitem doc "object") as [object| | |]; try reflexivity.
    destruct (getitem object "kind") as [kind| | |]; try reflexivity.
    destruct (queue_put _ _) as [[[]| | |] w1]; try reflexivity.
    destruct (getitem object "metadata") as [metadata| | |]; try reflexivity.
    destruct (getitem metadata "resourceVersion") as [new_ver| | |]; try reflexivity.
    apply IH.
Qed.

(** X7. Reading the lines of a stream is reading a first part of them and
    then the rest, from the resource version and the world the first part
    left; so when a line fails, the lines after it are never read: the
    outcome is the same whatever follows. *)
Theorem watch_lines_reads_in_order ls1 ls2 rv w :
  watch_lines (ls1 ++ ls2) rv w
  = (rv' ← watch_lines ls1 rv; watch_lines ls2 rv') w
  /\ (forall e w1, watch_lines ls1 rv w = (Raise e, w1) ->
        watch_lines (ls1 ++ ls2) rv w = (Raise e, w1)).
Proof.
  split; [apply watch_lines_app|].
  intros e w1 Hfail. rewrite watch_lines_app. now rewrite (bind_raise _ _ _ _ _ Hfail).
Qed.

(** An event with all its fields, and room for it. *)
Lemma watch_lines_event l u version rest rv w :
  line_update l = Some (u, version) ->
  has_room w 1 ->
  watch_lines (l :: rest) rv w
  = watch_lines rest version
      (with_queue (queue w ++ [u])
         (with_trace
            (trace w ++ [Log DEBUG "Read line: %s" [ALine l];
                         Put u;
                         Log DEBUG "Update resourceVersion, was: %s, now: %s"
                             [AVal rv; AVal version]])
            w)).
Proof.
  intros Hup Hroom. destruct l as [|raw|doc]; try discriminate.
  unfold line_update in Hup.
  destruct (getitem doc "type") as [type| | |] eqn:Htype; try discriminate.
  destruct (getitem doc "object") as [object| | |] eqn:Hobj; try discriminate.
  destruct (eq_str type TYPE_ERROR) eqn:Herr; try discriminate.
  destruct (getitem object "kind") as [kind| | |] eqn:Hkind; try discriminate.
  destruct (getitem object "metadata") as [metadata| | |] eqn:Hmeta; try discriminate.
  destruct (getitem metadata "resourceVersion") as [v| | |] eqn:Hver; try discriminate.
  injection Hup as <- <-.
  cbn [watch_lines]. run. cbn [json_loads]. run.
  rewrite Htype. run. rewrite Herr, Hobj. run. rewrite Hkind. run.
  erewrite bind_return; cycle 1.
  { apply queue_put_room. exact Hroom. }
  cbv beta. run. rewrite Hmeta. run. rewrite Hver. run.
  unfold with_trace, with_queue; cbn. rewrite <- !app_assoc. reflexivity.
Qed.

Lemma last_cons {A} (x : A) xs d : List.last (x :: xs) d = List.last xs x.
Proof.
  revert x d. induction xs as [|y xs IH]; intros x d; [reflexivity|].
  change (List.last (x :: y :: xs) d) with (List.last (y :: xs) d).
  rewrite !IH. reflexivity.
Qed.

Lemma puts_app t1 t2 : puts (t1 ++ t2) = puts t1 ++ puts t2.
Proof. apply omap_app. Qed.

Lemma requests_app t1 t2 : requests (t1 ++ t2) = requests t1 ++ requests t2.
Proof. apply omap_app. Qed.

(** A stream of lines the watch gets through, on a queue with room. *)
Lemma watch_good_stream_run ls : forall rv w,
  Forall good_line ls ->
  has_room w (length (stream_updates ls)) ->
  fst (watch_lines ls rv w) = Return (List.last (stream_versions ls) rv)
  /\ queue (snd (watch_lines ls rv w)) = queue w ++ stream_updates ls
  /\ puts (trace (snd (watch_lines ls rv w))) = puts (trace w) ++ stream_updates ls
  /\ net (snd (watch_lines ls rv w)) = net w
  /\ cache (snd (watch_lines ls rv w)) = cache w.
Proof.
  induction ls as [|l ls IH]; intros rv w Hgood Hroom.
  - cbn. rewrite !app_nil_r. repeat split; reflexivity.
  - apply Forall_cons in Hgood as [Hl Hgood].
    destruct (line_update l) as [[u version]|] eqn:Hup.
    + unfold stream_updates, stream_versions in *.
      cbn [omap list_omap] in *. rewrite Hup in *. cbn [map fst snd length] in *.
      rewrite last_cons.
      rewrite (watch_lines_event l u version ls rv w Hup)
        by (unfold has_room in *; lia).
      match goal with
      | |- context [watch_lines ls version ?w1] =>
          destruct (IH version w1 Hgood) as (Hr & Hq & Hp & Hn & Hc)
      end.
      { unfold has_room in *. cbn [queue with_queue with_trace].
        rewrite length_app. cbn [length]. lia. }
      rewrite Hr, Hq, Hp, Hn, Hc. cbn [queue cache net trace with_queue with_trace].
      rewrite puts_app. cbn. rewrite <- !app_assoc. repeat split; reflexivity.
    + destruct Hl as [->|[x Hx]]; [|congruence].
      unfold stream_updates, stream_versions in *.
      cbn [omap list_omap] in *. cbn [line_update] in *.
      rewrite watch_lines_keep_alive. apply IH; assumption.
Qed.

(** X8. A stream all of whose lines go through (keep-alives and events
    with all their fields), on a queue with room: the updates of the events
    are put on the queue in the order of the stream, one per event, the
    keep-alives leave nothing, and the resource version the watch holds
    afterwards is that of the last event, or the one it started with when
    there was no event. *)
Theorem watch_lines_good_stream ls rv w :
  Forall good_line ls ->
  has_room w (length (stream_updates ls)) ->
  fst (watch_lines ls rv w) = Return (List.last (stream_versions ls) rv)
  /\ queue (snd (watch_lines ls rv w)) = queue w ++ stream_updates ls
  /\ puts (trace (snd (watch_lines ls rv w))) = puts (trace w) ++ stream_updates ls
  /\ length (stream_updates ls)
     = length (List.filter not_empty ls)
  /\ (stream_updates ls = [] -> fst (watch_lines ls rv w) = Return rv).
Proof.
  intros Hgood Hroom.
  destruct (watch_good_stream_run ls rv w Hgood Hroom) as (Hr & Hq & Hp & _ & _).
  split; [exact Hr|]. split; [exact Hq|]. split; [exact Hp|]. split.
  - clear -Hgood. unfold stream_updates. rewrite length_map.
    induction Hgood as [|l ls Hl _ IH]; [reflexivity|].
    cbn [omap list_omap List.filter].
    destruct Hl as [->|[x Hx]].
    + cbn. exact IH.
    + rewrite Hx. destruct l; try discriminate. cbn. now rewrite IH.
  - intros Hnone. rewrite Hr. unfold stream_updates, stream_versions in *.
    destruct (omap line_update ls); [reflexivity|discriminate].
Qed.

(** X9. An event whose object has a kind but no resource version (its
    metadata, or the resourceVersion in it, is missing): the update goes on
    the queue first, and only then does the lookup of the version raise;
    the watch ends with that exception, with the update delivered and the
    lines after it unread. *)
Theorem watch_event_without_version doc type object kind e rest rv w :
  getitem doc "type" = Return type ->
  eq_str type TYPE_ERROR = false ->
  getitem doc "object" = Return object ->
  getitem object "kind" = Return kind ->
  (getitem object "metadata" = Raise e
   \/ exists metadata, getitem object "metadata" = Return metadata
                       /\ getitem metadata "resourceVersion" = Raise e) ->
  has_room w 1 ->
  watch_lines (Encoded doc :: rest) rv w
  = (Raise e,
     with_queue (queue w ++ [(type, kind, object)])
       (with_trace
          (trace w ++ [Log DEBUG "Read line: %s" [ALine (Encoded doc)];
                       Put (type, kind, object)])
          w)).
Proof.
  intros Htype Herr Hobj Hkind Hmissing Hroom.
  cbn [watch_lines]. run. cbn [json_loads]. run.
  rewrite Htype. run. rewrite Herr, Hobj. run. rewrite Hkind. run.
  erewrite bind_return; cycle 1.
  { apply queue_put_room. exact Hroom. }
  cbv beta. run.
  destruct Hmissing as [Hmeta|[metadata [Hmeta Hver]]].
  - rewrite Hmeta. run.
    unfold with_trace, with_queue; cbn. rewrite <- !app_assoc. reflexivity.
  - rewrite Hmeta. run. rewrite Hver. run.
    unfold with_trace, with_queue; cbn. rewrite <- !app_assoc. reflexivity.
Qed.

(** ** More on the worker *)

(** X10. One turn of the worker in which all goes well: the list reply is
    good, there is room on the queue, and the stream that follows has only
    lines that go through and is then closed by the server.  All the
    Added-updates of the list are on the queue before the first update of
    the stream, each group in its own order, and the watch goes on from the
    resource version of the last event of the stream (from that of the list
    when the stream had no event). *)
Theorem worker_turn_order self resource_type get_template watch_template
    lresp sresp rest doc objects metadata version w :
  GET_URLS !! resource_type = Some get_template ->
  WATCH_URLS !! resource_type = Some watch_template ->
  net w = Answer lresp :: Answer sresp :: rest ->
  status_code lresp = 200%Z ->
  body lresp = Some doc ->
  getitem doc "items" = Return (VList objects) ->
  get_default doc "metadata" (VDict []) = Return metadata ->
  get metadata "resourceVersion" = Return version ->
  status_code sresp = 200%Z ->
  Forall good_line (lines sresp) ->
  broken sresp = None ->
  has_room w (length objects + length (stream_updates (lines sresp))) ->
  exists w2,
    (resource_version ← _sync_resources self resource_type;
     _watch_resource self resource_type resource_version) w
    = replies_bound
        (fun fuel => watch_loop fuel self (watch_template (k8s_api self))
                       (List.last (stream_versions (lines sresp)) version)) w2
    /\ queue w2
       = queue w ++ added_updates resource_type objects ++ stream_updates (lines sresp)
    /\ net w2 = rest
    /\ cache w2 = cache w.
Proof.
  intros Hget Hwatch Hnet Hls Hbody Hitems Hmeta Hver Hss Hgood Hclosed Hroom.
  erewrite bind_return; cycle 1.
  { eapply (sync_resources_ok _ _ _ lresp); eauto.
    unfold has_room in *. lia. }
  erewrite watch_resource_start; [|exact Hwatch|reflexivity|exact Hss].
  match goal with
  | |- context [(watch_lines (lines sresp) version ≫= _) ?w1] =>
      destruct (watch_good_stream_run (lines sresp) version w1 Hgood)
        as (Hr & Hq & _ & Hn & Hc);
      [|destruct (watch_lines (lines sresp) version w1) as [r w2] eqn:Hlines]
  end.
  { unfold has_room in *. cbn [queue watching with_net with_queue with_trace].
    rewrite length_app. unfold added_updates. rewrite length_map. lia. }
  cbn [fst snd] in *. subst r. exists w2.
  rewrite (bind_return _ _ _ _ _ Hlines), Hclosed.
  unfold replies_bound. rewrite Hn, Hq, Hc.
  cbn [queue cache net watching with_net with_queue with_trace].
  rewrite <- app_assoc. repeat split; reflexivity.
Qed.

(** X11. What [_manage_resource] does with an exception that comes out of
    its resync or its watch.  The classes it catches are exactly
    [ConnectionError], [HTTPError], [KubernetesApiError] and [Full]: for
    these it logs the exception, logs the restart, sleeps a second, and
    then goes on as from its start, a resync first.  For any other class
    it logs the restart and sleeps just the same, and then the exception
    ends it. *)
Theorem worker_catches_four_classes self resource_type e w w' :
  (resource_version ← _sync_resources self resource_type;
   _watch_resource self resource_type resource_version) w = (Raise e, w') ->
  (is_Some (except_event resource_type e)
   <-> e = ConnectionError \/ e = HTTPError \/ e = KubernetesApiError \/ e = QueueFull)
  /\ (forall ev, except_event resource_type e = Some ev ->
        _manage_resource self resource_type w
        = _manage_resource self resource_type
            (with_trace (trace w' ++ ev :: restart_events resource_type) w'))
  /\ (except_event resource_type e = None ->
      _manage_resource self resource_type w
      = (Raise e, with_trace (trace w' ++ restart_events resource_type) w')).
Proof.
  intros Hbody. split; [|split].
  - split.
    + intros [ev Hev]. destruct e; try discriminate; tauto.
    + intros [Heq|[Heq|[Heq|Heq]]]; subst e; cbn; eauto.
  - intros ev Hev. apply (manage_resource_restarts _ _ _ _ _ _ Hbody Hev).
  - intros Hev. apply (manage_resource_uncaught _ _ _ _ _ Hbody Hev).
Qed.

(** The queue takes the first [k] updates of a resync and is full. *)
Lemma queue_all_added_full resource_type : forall k objects w,
  (0 < MAX_QUEUE_SIZE)%Z ->
  Z.of_nat (length (queue w) + k) = MAX_QUEUE_SIZE ->
  (k < length objects)%nat ->
  exists t,
    for_each objects (fun resource =>
        log DEBUG "Queueing update: %s" [AVal resource];;
        queue_put (VStr TYPE_ADDED, VStr resource_type, resource)) w
    = (Raise QueueFull,
       with_trace (trace w ++ t)
         (with_queue (queue w ++ added_updates resource_type (firstn k objects)) w))
    /\ puts t = added_updates resource_type (firstn k objects).
Proof.
  induction k as [|k IH]; intros objects w Hpos Hfull Hlt.
  - destruct objects as [|o objects]; [cbn in Hlt; lia|].
    exists [Log DEBUG "Queueing update: %s" [AVal o]]. split; [|reflexivity].
    cbn [for_each firstn added_updates map]. rewrite bind_assoc. run.
    erewrite bind_raise; cycle 1.
    { apply queue_put_full; [exact Hpos|]. cbn [queue with_trace]. lia. }
    unfold with_trace, with_queue; cbn. now rewrite app_nil_r.
  - destruct objects as [|o objects]; [cbn in Hlt; lia|].
    cbn [length] in Hlt.
    cbn [for_each]. rewrite bind_assoc. run.
    erewrite bind_return; cycle 1.
    { apply queue_put_room. unfold has_room. cbn [queue with_trace]. lia. }
    match goal with
    | |- context [for_each objects _ ?w1] =>
        destruct (IH objects w1 Hpos) as (t & Hrun & Hputs)
    end.
    { cbn [queue with_queue with_trace]. rewrite length_app. cbn [length]. lia. }
    { lia. }
    exists (Log DEBUG "Queueing update: %s" [AVal o]
            :: Put (VStr TYPE_ADDED, VStr resource_type, o) :: t).
    split.
    + rewrite Hrun. unfold with_trace, with_queue; cbn.
      rewrite <- !app_assoc. reflexivity.
    + cbn. unfold puts in Hputs. now rewrite Hputs.
Qed.

(** X12. A resync on a bounded queue that has room for only the first [k]
    objects of the list: these [k] are put on the queue, in the order of
    the list, which is then at its bound; the put of the next one raises
    [Full] and the resync ends with it, returning no resource version. *)
Theorem sync_resources_fills_queue self resource_type template resp rest doc objects
    metadata version k w :
  GET_URLS !! resource_type = Some template ->
  net w = Answer resp :: rest ->
  status_code resp = 200%Z ->
  body resp = Some doc ->
  getitem doc "items" = Return (VList objects) ->
  get_default doc "metadata" (VDict []) = Return metadata ->
  get metadata "resourceVersion" = Return version ->
  (0 < MAX_QUEUE_SIZE)%Z ->
  Z.of_nat (length (queue w) + k) = MAX_QUEUE_SIZE ->
  (k < length objects)%nat ->
  fst (_sync_resources self resource_type w) = Raise QueueFull
  /\ queue (snd (_sync_resources self resource_type w))
     = queue w ++ added_updates resource_type (firstn k objects)
  /\ Z.of_nat (length (queue (snd (_sync_resources self resource_type w))))
     = MAX_QUEUE_SIZE.
Proof.
  intros Hurl Hnet Hstatus Hbody Hitems Hmeta Hver Hpos Hfull Hlt.
  rewrite (sync_resources_start _ _ _ _ _ _ Hurl Hnet).
  rewrite Hstatus. cbn [Z.eqb Pos.eqb negb].
  unfold resp_json. rewrite Hbody. run. rewrite Hitems. run.
  rewrite Hmeta. run. rewrite Hver. run. cbn [py_len py_iter]. run.
  match goal with
  | |- context [(for_each objects _ ≫= _) ?w1] =>
      destruct (queue_all_added_full resource_type k objects w1 Hpos)
        as (t & Hrun & _); [cbn [queue with_net with_trace]; lia|exact Hlt|]
  end.
  rewrite (bind_raise _ _ _ _ _ Hrun).
  cbn [fst snd queue with_net with_queue with_trace].
  split; [reflexivity|]. split; [reflexivity|].
  rewrite length_app. unfold added_updates. rewrite length_map, length_firstn.
  lia.
Qed.

Lemma getitem_raises v k e :
  getitem v k = Raise e -> e = KeyError \/ e = TypeError.
Proof.
  destruct v; cbn; try (intros [= <-]; tauto).
  destruct (assoc k items); [discriminate|]. intros [= <-]. tauto.
Qed.

(** X13. A list reply with status 200 whose body cannot be used: it is not
    JSON ([ValueError]), or it has no [items] ([KeyError]; [TypeError] when
    the body is not an object).  The resync raises that exception with
    nothing put on the queue, and since [_manage_resource] catches none of
    the three, the worker ends there. *)
Theorem sync_resources_unusable_body self resource_type template resp rest e w :
  GET_URLS !! resource_type = Some template ->
  net w = Answer resp :: rest ->
  status_code resp = 200%Z ->
  (body resp = None /\ e = ValueError)
  \/ (exists doc, body resp = Some doc /\ getitem doc "items" = Raise e) ->
  fst (_sync_resources self resource_type w) = Raise e
  /\ queue (snd (_sync_resources self resource_type w)) = queue w
  /\ fst (_manage_resource self resource_type w) = Raise e
  /\ net (snd (_manage_resource self resource_type w)) = rest.
Proof.
  intros Hurl Hnet Hstatus Hcase.
  assert (Hsync : exists w1,
             _sync_resources self resource_type w = (Raise e, w1)
             /\ queue w1 = queue w /\ net w1 = rest).
  { rewrite (sync_resources_start _ _ _ _ _ _ Hurl Hnet).
    rewrite Hstatus. cbn [Z.eqb Pos.eqb negb]. unfold resp_json.
    destruct Hcase as [[Hbody ->]|[doc [Hbody Hitems]]]; rewrite Hbody; run.
    - eexists. split; [reflexivity|]. split; reflexivity.
    - rewrite Hitems. run. eexists. split; [reflexivity|]. split; reflexivity. }
  destruct Hsync as (w1 & Hsync & Hq & Hn).
  assert (Hnone : except_event resource_type e = None).
  { destruct Hcase as [[_ ->]|[doc [_ Hitems]]]; [reflexivity|].
    destruct (getitem_raises _ _ _ Hitems) as [Heq|Heq]; subst e; reflexivity. }
  rewrite Hsync. split; [reflexivity|]. split; [exact Hq|].
  rewrite (manage_resource_uncaught self resource_type e w w1);
    [split; [reflexivity|exact Hn]| |exact Hnone].
  now rewrite (bind_raise _ _ _ _ _ Hsync).
Qed.

(** *** What the worker leaves alone *)

#[local] Instance same_cache_preorder : PreOrder same_cache.
Proof. split; [intros w; reflexivity | intros w1 w2 w3; unfold same_cache; congruence]. Qed.

#[local] Instance puts_only_preorder : PreOrder puts_only.
Proof.
  split.
  - intros w. exists []. now rewrite !app_nil_r.
  - intros w1 w2 w3 (us & Hq & Hp) (us' & Hq' & Hp'). exists (us ++ us').
    rewrite Hq', Hq, Hp', Hp, !app_assoc. split; reflexivity.
Qed.

Lemma same_cache_log lvl fmt args : preserves same_cache (log lvl fmt args).
Proof. intros w. reflexivity. Qed.

Lemma same_cache_sleep n : preserves same_cache (emit (Sleep n)).
Proof. intros w. reflexivity. Qed.

Lemma same_cache_queue_put u : preserves same_cache (queue_put u).
Proof. intros w. unfold queue_put. destruct (_ && _); reflexivity. Qed.

Lemma same_cache_session_get req : preserves same_cache (session_get req).
Proof.
  intros w. unfold session_get. destruct (net w) as [|[resp|e] rest]; reflexivity.
Qed.

Lemma puts_only_log lvl fmt args : preserves puts_only (log lvl fmt args).
Proof.
  intros w. exists []. cbn. rewrite puts_app, !app_nil_r. split; reflexivity.
Qed.

Lemma puts_only_sleep n : preserves puts_only (emit (Sleep n)).
Proof.
  intros w. exists []. cbn. rewrite puts_app, !app_nil_r. split; reflexivity.
Qed.

Lemma puts_only_queue_put u : preserves puts_only (queue_put u).
Proof.
  intros w. unfold queue_put. destruct (_ && _).
  - exists []. now rewrite !app_nil_r.
  - exists [u]. cbn. rewrite puts_app. split; reflexivity.
Qed.

Lemma puts_only_session_get req : preserves puts_only (session_get req).
Proof.
  intros w. exists []. unfold session_get.
  destruct (net w) as [|[resp|e] rest]; cbn; rewrite puts_app, !app_nil_r;
    split; reflexivity.
Qed.

#[local] Hint Resolve same_cache_preorder same_cache_log same_cache_sleep
  same_cache_queue_put same_cache_session_get puts_only_preorder puts_only_log
  puts_only_sleep puts_only_queue_put puts_only_session_get : preserves.

(** Every relation that the steps of the worker keep is kept by the worker. *)
Lemma worker_preserves (R : relation world) `{!PreOrder R} self resource_type :
  (forall lvl fmt args, preserves R (log lvl fmt args)) ->
  (forall n, preserves R (emit (Sleep n))) ->
  (forall u, preserves R (queue_put u)) ->
  (forall req, preserves R (session_get req)) ->
  preserves R (_manage_resource self resource_type).
Proof.
  intros Hlog Hsleep Hput Hget.
  assert (Hapi : forall path streamed rv, preserves R (_api_get self path streamed rv)).
  { intros. unfold _api_get. preserves_steps. }
  assert (Hsync : preserves R (_sync_resources self resource_type)).
  { unfold _sync_resources. preserves_steps. }
  assert (Hlines : forall ls rv, preserves R (watch_lines ls rv)).
  { induction ls as [|l ls IH]; intros rv; [apply preserves_mret; assumption|].
    destruct l; cbn [watch_lines]; auto; preserves_steps. }
  assert (Hloop : forall path fuel rv, preserves R (watch_loop fuel self path rv)).
  { intros path. induction fuel as [|fuel IH]; intros rv; cbn [watch_loop];
      [apply preserves_out_of_fuel; assumption|]. preserves_steps. }
  assert (Hwatch : forall rv, preserves R (_watch_resource self resource_type rv)).
  { intros rv. unfold _watch_resource. preserves_steps. }
  assert (Hturn : preserves R (manage_turn self resource_type)).
  { unfold manage_turn. apply preserves_try_finally; [assumption| |preserves_steps].
    apply preserves_try_except; [assumption|preserves_steps|].
    intros e h. destruct e; cbn; intros [= <-]; apply Hlog. }
  unfold _manage_resource. apply preserves_replies_bound. intros fuel.
  induction fuel as [|fuel IH]; cbn [manage_loop];
    [apply preserves_out_of_fuel; assumption|].
  preserves_steps.
Qed.

(** X14. However long the worker of a resource type runs and however it
    ends, it never writes to the cache and never takes anything off the
    queue: the cache is as it found it, and the queue is the one it found
    followed by the updates it has put, in the order it put them. *)
Theorem worker_only_puts self resource_type w :
  cache (snd (_manage_resource self resource_type w)) = cache w
  /\ exists us,
       queue (snd (_manage_resource self resource_type w)) = queue w ++ us
       /\ puts (trace (snd (_manage_resource self resource_type w)))
          = puts (trace w) ++ us.
Proof.
  split.
  - apply (worker_preserves same_cache); auto with preserves.
  - apply (worker_preserves puts_only); auto with preserves.
Qed.

(** ** More on the dispatcher *)

Lemma takes_app t1 t2 : takes (t1 ++ t2) = takes t1 ++ takes t2.
Proof. apply omap_app. Qed.

#[local] Instance only_takes_preorder : PreOrder only_takes.
Proof.
  split.
  - intros w. repeat split. exists []. now rewrite app_nil_r.
  - intros w1 w2 w3 (Hn & Hr & Hp & taken & Hq & Ht)
      (Hn' & Hr' & Hp' & taken' & Hq' & Ht').
    split; [congruence|]. split; [congruence|]. split; [congruence|].
    exists (taken ++ taken'). rewrite Hq, Hq', Ht', Ht, !app_assoc.
    split; reflexivity.
Qed.

Lemma only_takes_same_queue w w' :
  net w' = net w -> queue w' = queue w ->
  requests (trace w') = requests (trace w) ->
  puts (trace w') = puts (trace w) ->
  takes (trace w') = takes (trace w) ->
  only_takes w w'.
Proof.
  intros Hn Hq Hr Hp Ht. repeat split; try assumption.
  exists []. rewrite Hq, Ht, app_nil_r. split; reflexivity.
Qed.

Lemma only_takes_log lvl fmt args : preserves only_takes (log lvl fmt args).
Proof.
  intros w. apply only_takes_same_queue; cbn;
    rewrite ?requests_app, ?puts_app, ?takes_app, ?app_nil_r; reflexivity.
Qed.

Lemma only_takes_task_done : preserves only_takes task_done.
Proof.
  intros w. apply only_takes_same_queue; cbn;
    rewrite ?requests_app, ?puts_app, ?takes_app, ?app_nil_r; reflexivity.
Qed.

Lemma only_takes_queue_get : preserves only_takes queue_get.
Proof.
  intros w. unfold queue_get. destruct (queue w) as [|u rest] eqn:Hq.
  - apply only_takes_same_queue; reflexivity.
  - repeat split; cbn; rewrite ?requests_app, ?puts_app, ?app_nil_r; try reflexivity.
    exists [u]. rewrite Hq, takes_app. split; reflexivity.
Qed.

Lemma only_takes_call_handler h key resource :
  preserves only_takes (call_handler h key resource).
Proof.
  intros w. unfold call_handler. destruct (h key resource (cache w)) as [raised c].
  apply only_takes_same_queue; reflexivity.
Qed.

#[local] Hint Resolve only_takes_preorder only_takes_log only_takes_task_done
  only_takes_queue_get only_takes_call_handler : preserves.

(** X15. However long the dispatcher runs and however it ends, it sends
    nothing to the API server and puts nothing on the queue; it only takes
    items off the front of the queue, each one once and in the order they
    were in. *)
Theorem dispatcher_only_takes self w :
  let w' := snd (read_updates self w) in
  net w' = net w
  /\ requests (trace w') = requests (trace w)
  /\ puts (trace w') = puts (trace w)
  /\ exists taken,
       queue w = taken ++ queue w' /\ takes (trace w') = takes (trace w) ++ taken.
Proof.
  assert (Hget : forall rt et, preserves only_takes (get_handler self rt et)).
  { intros. unfold get_handler. preserves_steps. }
  assert (Hprocess : forall et rt res,
             preserves only_takes (_process_update self et rt res)).
  { intros. unfold _process_update. preserves_steps. }
  assert (Hturn : preserves only_takes (read_turn self)).
  { unfold read_turn. apply preserves_try_finally;
      [typeclasses eauto| |preserves_steps].
    apply preserves_bind; [typeclasses eauto|auto with preserves|intros _].
    apply preserves_bind;
      [typeclasses eauto|auto with preserves|intros [[et rt] res]].
    preserves_steps. }
  unfold read_updates. generalize (S (length (queue w))). intros fuel.
  revert w. change (preserves only_takes (read_loop fuel self)).
  induction fuel as [|fuel IH]; cbn [read_loop];
    [apply preserves_out_of_fuel; typeclasses eauto|].
  preserves_steps.
Qed.

(** [_process_update] and its effect on the cache. *)
Lemma process_update_effect self event_type resource_type resource w :
  exists w1,
    _process_update self event_type resource_type resource w
    = (fst (process_effect self event_type resource_type resource (cache w)), w1)
    /\ cache w1 = snd (process_effect self event_type resource_type resource (cache w))
    /\ queue w1 = queue w.
Proof.
  unfold _process_update, process_effect. run.
  destruct (getitem resource "metadata") as [metadata|e| |];
    try (eexists; split; [reflexivity|split; reflexivity]).
  run. destruct (getitem metadata "name") as [name|e| |];
    try (eexists; split; [reflexivity|split; reflexivity]).
  run. destruct (get metadata "namespace") as [namespace|e| |];
    try (eexists; split; [reflexivity|split; reflexivity]).
  run. unfold mbind at 1, M_bind at 1, try_except at 1.
  unfold mbind at 1, M_bind at 1. rewrite get_handler_run.
  destruct (lookup_handler _ _ _) as [h|e| |];
    try (eexists; split; [reflexivity|split; reflexivity]).
  - unfold mret, M_ret, try_except, mbind, M_bind, call_handler.
    cbn [cache with_trace].
    destruct (h (namespace, name) resource (cache w)) as [[e|] c].
    + destruct e; eexists; (split; [reflexivity|split; reflexivity]).
    + eexists; split; [reflexivity|split; reflexivity].
  - destruct e; eexists; (split; [reflexivity|split; reflexivity]).
Qed.

Lemma getitem_ends v k :
  (exists x, getitem v k = Return x) \/ (exists e, getitem v k = Raise e).
Proof. destruct v; cbn; eauto. destruct (assoc k items); eauto. Qed.

Lemma get_ends v k :
  (exists x, get v k = Return x) \/ (exists e, get v k = Raise e).
Proof. destruct v; cbn; eauto. destruct (assoc k items); eauto. Qed.

Lemma lookup_handler_ends hs resource_type event_type :
  (exists h, lookup_handler hs resource_type event_type = Return h)
  \/ (exists e, lookup_handler hs resource_type event_type = Raise e).
Proof.
  unfold lookup_handler. destruct (negb _); eauto.
  destruct resource_type, event_type; eauto. destruct (hs !! _); eauto.
Qed.

Lemma process_effect_ends self event_type resource_type resource c :
  fst (process_effect self event_type resource_type resource c) = Return tt
  \/ exists e, fst (process_effect self event_type resource_type resource c) = Raise e.
Proof.
  unfold process_effect.
  destruct (getitem_ends resource "metadata") as [[metadata ->]|[e ->]]; eauto.
  destruct (getitem_ends metadata "name") as [[name ->]|[e ->]]; eauto.
  destruct (get_ends metadata "namespace") as [[namespace ->]|[e ->]]; eauto.
  destruct (lookup_handler_ends (_handlers self) resource_type (looked_up event_type))
    as [[h ->]|[e ->]].
  - destruct (h (namespace, name) resource c) as [[e|] c']; [|eauto].
    destruct e; eauto.
  - destruct e; eauto.
Qed.

(** A turn of the dispatcher on the first item of the queue. *)
Lemma read_turn_effect self event_type resource_type resource rest w :
  queue w = (event_type, resource_type, resource) :: rest ->
  let r := fst (process_effect self event_type resource_type resource (cache w)) in
  fst (read_turn self w) = match fatal r with Some e => Raise e | None => Return tt end
  /\ queue (snd (read_turn self w)) = rest
  /\ cache (snd (read_turn self w))
     = snd (process_effect self event_type resource_type resource (cache w)).
Proof.
  intros Hq r. rewrite (read_turn_first _ _ _ _ _ _ Hq).
  destruct (process_update_effect self event_type resource_type resource
              (taken event_type resource_type resource rest w)) as (w1 & Hpu & Hc & Hqq).
  cbn [cache queue taken with_queue with_trace] in Hpu, Hc, Hqq. fold r in Hpu.
  unfold try_finally, try_except. rewrite Hpu.
  destruct (process_effect_ends self event_type resource_type resource (cache w))
    as [Hr|[e Hr]]; fold r in Hr; rewrite Hr.
  - rewrite read_finally_run. cbn. auto.
  - destruct e; cbn [only_key_error fatal]; rewrite ?log_run, read_finally_run;
      cbn; auto.
Qed.

Lemma read_updates_drain self : forall q w,
  queue w = q ->
  fst (read_updates self w) = fst (fst (drain self q (cache w)))
  /\ queue (snd (read_updates self w)) = snd (fst (drain self q (cache w)))
  /\ cache (snd (read_updates self w)) = snd (drain self q (cache w))
  /\ (fst (fst (drain self q (cache w))) = Blocked ->
      snd (fst (drain self q (cache w))) = []).
Proof.
  induction q as [|[[et rt] res] rest IH]; intros w Hq.
  - rewrite (read_updates_waits _ _ Hq). cbn. rewrite Hq. auto.
  - destruct (read_turn_effect self et rt res rest w Hq) as (Hf & Hqq & Hc).
    cbn [drain].
    destruct (process_effect self et rt res (cache w)) as [r c'] eqn:Hpe.
    cbn [fst snd] in Hf, Hc.
    destruct (read_turn self w) as [r' w'] eqn:Hturn. cbn [fst snd] in *.
    destruct (fatal r) as [e|] eqn:Hfatal; subst r'.
    + rewrite (read_updates_raises _ _ _ _ Hturn). cbn.
      repeat split; try assumption. discriminate.
    + rewrite (read_updates_next _ _ rest _ _ Hq Hturn Hqq).
      rewrite <- Hc. apply IH. exact Hqq.
Qed.


(** X17. An update for which no handler is registered (an event type or a
    resource type that is not in the table): the dispatcher logs the
    warning "No ... handlers for", calls nothing, leaves the cache as it
    is, and goes on with the rest of the queue.  But when the event type or
    the resource type of the update is a list or an object, the lookup
    raises [TypeError], which nothing catches, and the dispatcher ends. *)
Theorem dispatcher_update_without_handler self event_type resource_type resource
    metadata name namespace e rest w :
  queue w = (event_type, resource_type, resource) :: rest ->
  getitem resource "metadata" = Return metadata ->
  getitem metadata "name" = Return name ->
  get metadata "namespace" = Return namespace ->
  lookup_handler (_handlers self) resource_type (looked_up event_type) = Raise e ->
  (e = KeyError ->
   let w' :=
     handled event_type resource_type resource rest (cache w)
       (Log WARNING "No %s handlers for: %s" [AVal event_type; AVal resource_type]
        :: finally_events rest) w in
   read_turn self w = (Return tt, w')
   /\ read_updates self w = read_updates self w')
  /\ (e <> KeyError ->
      fst (read_updates self w) = Raise e
      /\ queue (snd (read_updates self w)) = rest)
  /\ (hashable resource_type && hashable event_type = true <-> e = KeyError).
Proof.
  intros Hq Hmeta Hname Hns Hh.
  assert (Hpu : forall w1,
    _process_update self event_type resource_type resource w1
    = match e with
      | KeyError =>
          (Return tt,
           with_trace
             (trace w1 ++ Log DEBUG "Processing '%s' for kind '%s'"
                              [AVal event_type; AVal resource_type]
                          :: get_handler_events resource_type event_type
                          ++ [Log WARNING "No %s handlers for: %s"
                                  [AVal event_type; AVal resource_type]]) w1)
      | _ =>
          (Raise e,
           with_trace
             (trace w1 ++ Log DEBUG "Processing '%s' for kind '%s'"
                              [AVal event_type; AVal resource_type]
                          :: get_handler_events resource_type event_type) w1)
      end).
  { intros w1. unfold _process_update. run.
    rewrite Hmeta. run. rewrite Hname. run. rewrite Hns. run.
    unfold mbind at 1, M_bind at 1, try_except at 1.
    unfold mbind at 1, M_bind at 1. rewrite get_handler_run, Hh.
    destruct e; cbn [only_key_error]; run;
      unfold mret, M_ret, with_trace; cbn [queue cache net trace];
      same_trace; reflexivity. }
  split; [|split].
  - intros -> w'.
    assert (Hturn : read_turn self w = (Return tt, w')).
    { rewrite (read_turn_first _ _ _ _ _ _ Hq).
      unfold try_finally, try_except. rewrite Hpu. rewrite read_finally_run.
      unfold w', handled, taken, with_cache, with_queue, with_trace.
      cbn [queue cache net trace]. same_trace. reflexivity. }
    split; [exact Hturn|].
    apply (read_updates_next _ _ rest _ _ Hq Hturn). reflexivity.
  - intros Hne.
    assert (Hturn : exists w1, read_turn self w = (Raise e, w1) /\ queue w1 = rest).
    { rewrite (read_turn_first _ _ _ _ _ _ Hq).
      unfold try_finally, try_except. rewrite Hpu.
      destruct e; try contradiction; cbn [only_key_error];
        rewrite read_finally_run; eexists; split; reflexivity. }
    destruct Hturn as (w1 & Hturn & Hq1).
    rewrite (read_updates_raises _ _ _ _ Hturn). split; [reflexivity|exact Hq1].
  - revert Hh. unfold lookup_handler. unfold looked_up.
    destruct (eq_str event_type TYPE_MODIFIED) eqn:Heq.
    + destruct event_type; try discriminate. cbn.
      rewrite andb_true_r.
      destruct (hashable resource_type) eqn:Hhash; cbn.
      * destruct resource_type; try discriminate; try (intros [= <-]; tauto).
        destruct (_ !! _); [discriminate|]. intros [= <-]. tauto.
      * intros [= <-]. split; discriminate.
    + destruct (hashable resource_type && hashable event_type) eqn:Hhash; cbn.
      * destruct resource_type, event_type; try discriminate;
          try (intros [= <-]; tauto).
        destruct (_ !! _); [discriminate|]. intros [= <-]. tauto.
      * intros [= <-]. split; discriminate.
Qed.

(** ** More on start-up *)

(** X18. [load_cache] writes over the cache, entry by entry: a workload id
    that no endpoint has keeps what the cache had for it; of several
    endpoints with the same workload id the last one listed wins; and when
    the policy store raises, the exception goes up with the cache as it
    was. *)
Theorem load_cache_last_wins self w :
  (forall eps,
     get_endpoints (_client self) "k8s" = inr eps ->
     fst (load_cache self w) = Return tt
     /\ (forall id, ~ In id (map workload_id eps) ->
           cache (snd (load_cache self w)) !! id = cache w !! id)
     /\ (forall before ep after,
           eps = before ++ ep :: after ->
           ~ In (workload_id ep) (map workload_id after) ->
           cache (snd (load_cache self w)) !! workload_id ep = Some (ep_labels ep)))
  /\ (forall e,
        get_endpoints (_client self) "k8s" = inl e ->
        fst (load_cache self w) = Raise e
        /\ cache (snd (load_cache self w)) = cache w).
Proof.
  split.
  - intros eps Heps. rewrite (load_cache_run _ _ _ Heps).
    cbn [fst snd cache with_trace with_cache].
    split; [reflexivity|]. split.
    + intros id Hid. now apply seed_lookup_other.
    + intros before ep after -> Hlast. rewrite seed_app.
      change (seed (ep :: after) (seed before (cache w)))
        with (seed after (<[workload_id ep := ep_labels ep]> (seed before (cache w)))).
      rewrite seed_lookup_other by exact Hlast. apply lookup_insert_eq.
  - intros e He. unfold load_cache. run. rewrite He. run. split; reflexivity.
Qed.

(** X19. When one of the two calls on the policy store raises, [run] ends
    with that exception before anything else is done: no worker thread is
    started, nothing is taken off the queue, and if it is the first call
    (the tier) that fails the cache is not even loaded. *)
Theorem run_fails_before_workers self e w :
  let tier := set_policy_tier_metadata (_client self) NET_POL_TIER_NAME
                (VDict [("order", VInt 50)]) in
  let started t := omap (fun ev => match ev with
                                   | ThreadStart T => Some T
                                   | _ => None
                                   end) t in
  (tier = Some e ->
   run self w
   = (Raise e,
      with_trace (trace w ++ [SetTier NET_POL_TIER_NAME (VDict [("order", VInt 50)])]) w))
  /\ (tier = None -> get_endpoints (_client self) "k8s" = inl e ->
      fst (run self w) = Raise e
      /\ cache (snd (run self w)) = cache w
      /\ queue (snd (run self w)) = queue w
      /\ started (trace (snd (run self w))) = started (trace w)).
Proof.
  intros tier started. split.
  - intros Htier. unfold run. run. fold tier. rewrite Htier. run. reflexivity.
  - intros Htier He. unfold run. run. fold tier. rewrite Htier. run.
    unfold load_cache. rewrite bind_assoc. run. rewrite bind_assoc.
    rewrite He. run. cbn [fst snd cache queue trace with_trace].
    repeat split; try reflexivity.
    unfold started. rewrite !omap_app. cbn. now rewrite !app_nil_r.
Qed.

(** ** From the list to the handlers *)

Lemma drain_added self resource_type h : forall objects c,
  lookup_handler (_handlers self) (VStr resource_type) (looked_up (VStr TYPE_ADDED))
  = Return h ->
  Forall (fun resource => is_Some (key_of resource)) objects ->
  (forall key resource c e, fst (h key resource c) = Some e -> e = KeyError) ->
  drain self (added_updates resource_type objects) c
  = (Blocked, [], handle_all h objects c).
Proof.
  intros objects c Hh Hkeys Hsafe. revert c.
  induction Hkeys as [|o objects [key Hkey] _ IH]; intros c; [reflexivity|].
  pose proof Hkey as Hfields. unfold key_of in Hfields.
  destruct (getitem o "metadata") as [metadata| | |] eqn:Hm; try discriminate.
  destruct (getitem metadata "name") as [name| | |] eqn:Hn; try discriminate.
  destruct (get metadata "namespace") as [namespace| | |] eqn:Hns; try discriminate.
  injection Hfields as <-.
  unfold handle_all. cbn [added_updates map drain foldl]. rewrite Hkey.
  fold (handle_all h objects). unfold process_effect. rewrite Hm, Hn, Hns, Hh.
  pose proof (Hsafe (namespace, name) o c) as Hs.
  destruct (h (namespace, name) o c) as [[e|] c']; cbn [fst snd] in *.
  - rewrite (Hs e eq_refl). cbn [fatal]. apply IH.
  - cbn [fatal]. apply IH.
Qed.

(** X20. From the list to the handlers.  A resync that goes well on an empty
    queue, then the dispatcher on what it left: when the Added handler of
    the resource type raises nothing but [KeyError] and every object of the
    list has a name, the handler is called once for each object of the
    list, in the order of the list, with the key (namespace, name) of the
    object and the cache the call before left; the dispatcher then waits on
    the empty queue. *)
Theorem resync_then_dispatch self resource_type template resp rest doc objects
    metadata version h w :
  GET_URLS !! resource_type = Some template ->
  net w = Answer resp :: rest ->
  status_code resp = 200%Z ->
  body resp = Some doc ->
  getitem doc "items" = Return (VList objects) ->
  get_default doc "metadata" (VDict []) = Return metadata ->
  get metadata "resourceVersion" = Return version ->
  queue w = [] ->
  has_room w (length objects) ->
  _handlers self !! (resource_type, TYPE_ADDED) = Some h ->
  Forall (fun resource => is_Some (key_of resource)) objects ->
  (forall key resource c e, fst (h key resource c) = Some e -> e = KeyError) ->
  let w1 := snd (_sync_resources self resource_type w) in
  queue w1 = added_updates resource_type objects
  /\ fst (read_updates self w1) = Blocked
  /\ queue (snd (read_updates self w1)) = []
  /\ cache (snd (read_updates self w1)) = handle_all h objects (cache w).
Proof.
  intros Hurl Hnet Hstatus Hbody Hitems Hmeta Hver Hempty Hroom Hh Hkeys Hsafe w1.
  assert (Hq : queue w1 = added_updates resource_type objects /\ cache w1 = cache w).
  { unfold w1.
    rewrite (sync_resources_ok _ _ _ _ _ _ _ _ _ _ Hurl Hnet Hstatus Hbody Hitems
               Hmeta Hver Hroom).
    cbn [snd queue cache with_net with_queue with_trace]. now rewrite Hempty. }
  destruct Hq as [Hq Hc]. split; [exact Hq|].
  assert (Hl : lookup_handler (_handlers self) (VStr resource_type)
                 (looked_up (VStr TYPE_ADDED)) = Return h).
  { unfold looked_up, lookup_handler; cbn.
    destruct (String.eqb TYPE_ADDED TYPE_MODIFIED); cbn; now rewrite Hh. }
  pose proof (drain_added self resource_type h objects (cache w1) Hl Hkeys Hsafe) as Hd.
  destruct (read_updates_drain self _ w1 Hq) as (H1 & H2 & H3 & _).
  rewrite Hd in H1, H2, H3. cbn [fst snd] in H1, H2, H3. rewrite Hc in H3. auto.
Qed.

End Properties.

(** * The agent at work in the concrete setting *)

#[local] Existing Instance k8s_constants.

(** ** C1: a line that does not decode ends the worker *)

Lemma manage_resource_ends_on_malformed_line_witness :
  let self := agent_with ∅ in
  let w := fresh [list_reply 200 (Some pod_list);
                  stream_reply [Malformed "<html>502 Bad Gateway</html>"];
                  list_reply 200 (Some pod_list)] in
  fst (_manage_resource self "Pod" w) = Raise ValueError
  /\ net (snd (_manage_resource self "Pod" w)) = [list_reply 200 (Some pod_list)]
  /\ length (requests (trace (snd (_manage_resource self "Pod" w)))) = 2%nat.
Proof.
  intros self w.
  destruct (manage_resource_ends_on_malformed_line self "Pod" watch_pods_url
              (VStr "5") "<html>502 Bad Gateway</html>" []
              {| status_code := 200; body := None;
                 lines := [Malformed "<html>502 Bad Gateway</html>"]; broken := None |}
              [list_reply 200 (Some pod_list)]
              w (snd (_sync_resources self "Pod" w)))
    as [Hrun Hnet]; try reflexivity.
  split; [now rewrite Hrun|]. split; [exact Hnet|]. now rewrite Hrun.
Defined.

(** The same worker, had the server sent an error envelope instead, would
    have logged, slept and gone back to the resync. *)
Example manage_resource_restarts_on_error_envelope :
  let self := agent_with ∅ in
  let w := fresh [list_reply 200 (Some pod_list);
                  stream_reply [envelope "ERROR" (VDict [])];
                  list_reply 200 (Some pod_list)] in
  fst (_manage_resource self "Pod" w) = Blocked
  /\ map url (requests (trace (snd (_manage_resource self "Pod" w))))
     = ["https://kubernetes.default:443/api/v1/pods";
        "https://kubernetes.default:443/api/v1/watch/pods?resourceVersion=5";
        "https://kubernetes.default:443/api/v1/pods";
        "https://kubernetes.default:443/api/v1/watch/pods?resourceVersion=5"].
Proof. vm_compute. split; reflexivity. Qed.

(** A queue that fills up during the resync: [put] raises [Full], which the
    worker catches; it logs, sleeps and lists again. *)
Example manage_resource_restarts_on_full_queue :
  let waiting := replicate 9 (VStr "ADDED", VStr "Pod", object_of "Pod" "z" "1") in
  let w := {| queue := waiting; cache := ∅; trace := [];
              net := [list_reply 200 (Some pod_list); list_reply 200 (Some pod_list)] |} in
  fst (_manage_resource (agent_with ∅) "Pod" w) = Blocked
  /\ length (queue (snd (_manage_resource (agent_with ∅) "Pod" w))) = 10%nat
  /\ count_occ level_eq_dec
        (omap (fun ev => match ev with Log lvl _ _ => Some lvl | _ => None end)
           (trace (snd (_manage_resource (agent_with ∅) "Pod" w))))
        EXCEPTION = 2%nat
  /\ map url (requests (trace (snd (_manage_resource (agent_with ∅) "Pod" w))))
     = ["https://kubernetes.default:443/api/v1/pods";
        "https://kubernetes.default:443/api/v1/pods";
        "https://kubernetes.default:443/api/v1/pods"].
Proof. vm_compute. repeat split; reflexivity. Qed.

(** ** C2: only [KeyError] is caught around a handler *)

Lemma dispatcher_catches_only_KeyError_witness :
  let self := agent_with {[ ("Pod", "ADDED") := raising_handler KeyError ]} in
  let first := (VStr "MODIFIED", VStr "Pod", object_of "Pod" "a" "3") in
  let second := (VStr "ADDED", VStr "Pod", object_of "Pod" "b" "4") in
  exists w',
    read_turn self (queued [first; second]) = (Return tt, w')
    /\ read_updates self (queued [first; second]) = read_updates self w'
    /\ queue w' = [second]
    /\ In (Log EXCEPTION "Invalid %s: %s" [AVal (VStr "Pod"); AJson (object_of "Pod" "a" "3")])
          (trace w').
Proof.
  intros self first second.
  destruct (dispatcher_catches_only_KeyError self
              (VStr "MODIFIED") (VStr "Pod") (object_of "Pod" "a" "3")
              (VDict [("name", VStr "a"); ("namespace", VStr "default");
                      ("resourceVersion", VStr "3")])
              (VStr "a") (VStr "default") (raising_handler KeyError) KeyError ∅ [second]
              (queued [first; second]))
    as [Hcaught _]; try reflexivity.
  destruct (Hcaught eq_refl) as (Hturn & Hnext & Hq).
  eexists. split; [exact Hturn|]. split; [exact Hnext|]. split; [exact Hq|].
  vm_compute. tauto.
Defined.

(** A handler that raises [TypeError]: the exception leaves [read_updates],
    and the second item is never taken off the queue. *)
Lemma dispatcher_ends_on_handler_TypeError :
  let self := agent_with {[ ("Pod", "ADDED") := raising_handler TypeError ]} in
  let first := (VStr "ADDED", VStr "Pod", object_of "Pod" "a" "3") in
  let second := (VStr "ADDED", VStr "Pod", object_of "Pod" "b" "4") in
  fst (read_updates self (queued [first; second])) = Raise TypeError
  /\ queue (snd (read_updates self (queued [first; second]))) = [second].
Proof. vm_compute. split; reflexivity. Qed.

(** ** C3: the resource type put on the queue is the object's kind *)

Lemma watch_line_enqueues_object_kind_witness :
  let namespace := object_of "Namespace" "kube-system" "7" in
  let doc := VDict [("type", VStr "ADDED"); ("object", namespace)] in
  watch_lines [Encoded doc] (VStr "5") (fresh [])
  = (Return (VStr "7"),
     with_queue [(VStr "ADDED", VStr "Namespace", namespace)]
       (with_trace
          [Log DEBUG "Read line: %s" [ALine (Encoded doc)];
           Put (VStr "ADDED", VStr "Namespace", namespace);
           Log DEBUG "Update resourceVersion, was: %s, now: %s"
               [AVal (VStr "5"); AVal (VStr "7")]]
          (fresh []))).
Proof.
  intros namespace doc.
  rewrite (watch_line_enqueues_object_kind doc (VStr "ADDED") namespace
             (VStr "Namespace")
             (VDict [("name", VStr "kube-system"); ("namespace", VStr "default");
                     ("resourceVersion", VStr "7")])
             (VStr "7") [] (VStr "5") (fresh []));
    try reflexivity.
  right. cbn. lia.
Defined.

(** The watch started for pods is sent an object of kind Namespace: the
    update it puts on the queue says Namespace, not Pod. *)
Lemma watch_for_pods_enqueues_namespace :
  let namespace := object_of "Namespace" "kube-system" "7" in
  let w := fresh [stream_reply [envelope "ADDED" namespace]] in
  puts (trace (snd (_watch_resource (agent_with ∅) "Pod" (VStr "5") w)))
  = [(VStr "ADDED", VStr "Namespace", namespace)]
  /\ (VStr "ADDED", VStr "Namespace", namespace) <> (VStr "ADDED", VStr "Pod", namespace).
Proof. split; [vm_compute; reflexivity|discriminate]. Qed.

(** ** C4: a stream that ends is followed by another streaming request *)

Lemma watch_stream_end_and_failure_witness :
  let self := agent_with ∅ in
  let resp := {| status_code := 200; body := None;
                 lines := [envelope "MODIFIED" (object_of "Pod" "a" "6")];
                 broken := None |} in
  let w := fresh [Answer resp] in
  fst (_watch_resource self "Pod" (VStr "5") w) <> Return tt
  /\ exists w2 t,
       trace (snd (_watch_resource self "Pod" (VStr "5") w))
       = trace w2
         ++ api_get_events self (watch_pods_url (k8s_api self)) true (VStr "6") ++ t.
Proof.
  intros self resp w.
  destruct (watch_stream_end_and_failure self "Pod" watch_pods_url (VStr "5") resp [] w)
    as [Hend _]; try reflexivity.
  destruct (Hend (VStr "6")
              (snd (watch_lines (lines resp) (VStr "5")
                      (watching self (watch_pods_url (k8s_api self)) (VStr "5") resp [] w))))
    as (_ & Hagain & Hnever); try reflexivity.
  split; [exact Hnever|]. eexists. exact Hagain.
Defined.

(** The server closes the stream after one event, without error.  The watch
    is not left: it asks again from the version it has reached, and again
    when that stream ends too, and is then waiting for the server. *)
Lemma watch_asks_again_when_stream_ends :
  let w := fresh [stream_reply [envelope "MODIFIED" (object_of "Pod" "a" "6")];
                  stream_reply []] in
  fst (_watch_resource (agent_with ∅) "Pod" (VStr "5") w) = Blocked
  /\ map url (requests (trace (snd (_watch_resource (agent_with ∅) "Pod" (VStr "5") w))))
     = ["https://kubernetes.default:443/api/v1/watch/pods?resourceVersion=5";
        "https://kubernetes.default:443/api/v1/watch/pods?resourceVersion=6";
        "https://kubernetes.default:443/api/v1/watch/pods?resourceVersion=6"].
Proof. vm_compute. split; reflexivity. Qed.

(** ** C5: an error status with a body that is not JSON *)

(** The API server answers the list request for network policies with 404
    and the text "404 page not found". *)
Lemma sync_resources_error_body_not_json_witness :
  let resp := {| status_code := 404; body := None; lines := []; broken := None |} in
  let w := fresh [Answer resp] in
  fst (_sync_resources (agent_with ∅) "NetworkPolicy" w) = Raise ValueError
  /\ fst (_sync_resources (agent_with ∅) "NetworkPolicy" w) <> Raise KubernetesApiError.
Proof.
  intros resp w.
  apply (sync_resources_error_body_not_json (agent_with ∅) "NetworkPolicy"
           (fun api => api +:+ "/apis/extensions/v1beta1/networkpolicies") resp [] w);
    [reflexivity|reflexivity|discriminate|reflexivity].
Defined.

(** The worker does not survive it either: [ValueError] is not among the
    exceptions [_manage_resource] catches, and the list reply that would
    have come next is never asked for. *)
Example manage_resource_ends_on_error_page :
  let w := fresh [list_reply 404 None; list_reply 200 (Some pod_list)] in
  fst (_manage_resource (agent_with ∅) "NetworkPolicy" w) = Raise ValueError
  /\ net (snd (_manage_resource (agent_with ∅) "NetworkPolicy" w))
     = [list_reply 200 (Some pod_list)].
Proof. vm_compute. split; reflexivity. Qed.

(** With a JSON body the same status gives the API error, and the worker
    goes on. *)
Example sync_resources_error_status :
  let w := fresh [list_reply 404 (Some (VDict [("kind", VStr "Status")]))] in
  fst (_sync_resources (agent_with ∅) "NetworkPolicy" w) = Raise KubernetesApiError.
Proof. reflexivity. Qed.

(** A resync that goes well: the two pods of the list are put on the queue
    as Added-updates, in the order of the list, and "5" is returned. *)
Example sync_resources_pod_list :
  let w := fresh [list_reply 200 (Some pod_list)] in
  fst (_sync_resources (agent_with ∅) "Pod" w) = Return (VStr "5")
  /\ queue (snd (_sync_resources (agent_with ∅) "Pod" w))
     = [(VStr "ADDED", VStr "Pod", object_of "Pod" "a" "3");
        (VStr "ADDED", VStr "Pod", object_of "Pod" "b" "4")].
Proof.
  intros w.
  rewrite (sync_resources_ok (agent_with ∅) "Pod" pods_url
             {| status_code := 200; body := Some pod_list; lines := []; broken := None |}
             [] pod_list [object_of "Pod" "a" "3"; object_of "Pod" "b" "4"]
             (VDict [("resourceVersion", VStr "5")]) (VStr "5") w);
    try reflexivity.
  - split; reflexivity.
  - right. cbn. lia.
Qed.

(** ** C6: Modified is looked up as Added *)

Lemma get_handler_modified_is_added_witness :
  let self := agent_with {[ ("Pod", "ADDED") := quiet_handler ]} in
  fst (get_handler self (VStr "Pod") (VStr "MODIFIED") (fresh [])) = Return quiet_handler
  /\ fst (get_handler self (VStr "Pod") (VStr "DELETED") (fresh [])) = Raise KeyError.
Proof.
  intros self.
  destruct (get_handler_modified_is_added self "Pod" (fresh [])) as [Hadded Hnone].
  split.
  - apply (Hadded quiet_handler). reflexivity.
  - apply (Hnone "DELETED"). reflexivity.
Defined.

(** ** C7: an update without a name *)



(** Such an update reaches the queue from a list: the resync puts the
    objects of the list on the queue as they are, and the dispatcher ends on
    the first one, with the one after it left on the queue. *)
Example dispatcher_ends_on_listed_null_metadata :
  let self := agent_with {[ ("Pod", "ADDED") := labelling_handler ∅ ]} in
  let resource := VDict [("kind", VStr "Pod"); ("metadata", VNone)] in
  let doc := VDict [("items", VList [resource; object_of "Pod" "b" "4"]);
                    ("metadata", VDict [("resourceVersion", VStr "5")])] in
  let w1 := snd (_sync_resources self "Pod" (fresh [list_reply 200 (Some doc)])) in
  queue w1 = [(VStr "ADDED", VStr "Pod", resource);
              (VStr "ADDED", VStr "Pod", object_of "Pod" "b" "4")]
  /\ fst (read_updates self w1) = Raise TypeError
  /\ queue (snd (read_updates self w1))
     = [(VStr "ADDED", VStr "Pod", object_of "Pod" "b" "4")].
Proof. vm_compute. repeat split. Qed.

(** The dispatcher then handles the second update and waits for more. *)
Example dispatcher_goes_on_after_nameless_update :
  let self := agent_with {[ ("Pod", "ADDED") := labelling_handler {[ "app" := "web" ]} ]} in
  let first := (VStr "ADDED", VStr "Pod", nameless) in
  let second := (VStr "ADDED", VStr "Pod", object_of "Pod" "b" "4") in
  fst (read_updates self (queued [first; second])) = Blocked
  /\ cache (snd (read_updates self (queued [first; second])))
     = {[ "b" := {[ "app" := "web" ]} ]}.
Proof. vm_compute. split; reflexivity. Qed.

(** ** C8: the cache is seeded before the workers start *)

Lemma run_seeds_cache_before_workers_witness :
  let eps := [ {| workload_id := "default.web"; ep_labels := {[ "app" := "web" ]} |};
               {| workload_id := "default.db"; ep_labels := {[ "app" := "db" ]} |} ] in
  let self := {| k8s_api := "https://kubernetes.default:443";
                 auth_token := Some "s3cr3t"; ca_crt_exists := true;
                 _client := store_with eps; _handlers := ∅ |} in
  exists started,
    run self (fresh []) = read_updates self started
    /\ cache started !! "default.web" = Some {[ "app" := "web" ]}
    /\ cache started !! "default.db" = Some {[ "app" := "db" ]}
    /\ queue started = []
    /\ trace started
       = [SetTier "k8s-network-policy" (VDict [("order", VInt 50)]);
          GetEndpoints "k8s";
          CacheStore "default.web" {[ "app" := "web" ]};
          CacheStore "default.db" {[ "app" := "db" ]};
          Log INFO "Loaded cache" [];
          ThreadStart "NetworkPolicy";
          Log INFO "Started worker thread for: %s" [AStr "NetworkPolicy"];
          ThreadStart "Namespace";
          Log INFO "Started worker thread for: %s" [AStr "Namespace"];
          ThreadStart "Pod";
          Log INFO "Started worker thread for: %s" [AStr "Pod"]].
Proof.
  intros eps self.
  destruct (run_seeds_cache_before_workers self eps (fresh []))
    as (Hrun & _ & Hcache & Hqueue & Hlookup & _); try reflexivity.
  eexists. split; [exact Hrun|].
  assert (Hnd : List.NoDup (map workload_id eps)).
  { repeat constructor; cbn; intuition discriminate. }
  split; [exact (Hlookup Hnd {| workload_id := "default.web";
                                ep_labels := {[ "app" := "web" ]} |}
                   (or_introl eq_refl))|].
  split; [exact (Hlookup Hnd {| workload_id := "default.db";
                                ep_labels := {[ "app" := "db" ]} |}
                   (or_intror (or_introl eq_refl)))|].
  split; [exact Hqueue|reflexivity].
Defined.

(** ** C9: the request *)

Lemma api_get_request_witness :
  exists req,
    requests (trace (snd (_api_get (agent_with ∅) "https://kubernetes.default:443/api/v1/watch/pods"
                            true (VStr "5") (fresh []))))
    = [req]
    /\ headers req = [("Authorization", "Bearer s3cr3t")]
    /\ verify req = VerifyWith "/var/run/secrets/kubernetes.io/serviceaccount/ca.crt"
    /\ url req = "https://kubernetes.default:443/api/v1/watch/pods?resourceVersion=5"
    /\ stream req = true.
Proof.
  destruct (api_get_request (agent_with ∅) "https://kubernetes.default:443/api/v1/watch/pods"
              true (VStr "5") (fresh []))
    as (req & Htrace & _ & Hheaders & Hca & _ & _ & Hurl & _ & Hstream).
  exists req. split; [rewrite Htrace; reflexivity|].
  split; [apply (Hheaders "s3cr3t"); [reflexivity|discriminate]|].
  split; [apply Hca; reflexivity|].
  split; [apply (Hurl "5"); [reflexivity|discriminate]|exact Hstream].
Defined.

(** Without a token, a CA bundle and a resource version: no header, no
    verification, the bare path. *)
Example api_get_bare_request :
  requests (trace (snd (_api_get bare_agent "http://10.100.0.1:8080/api/v1/pods"
                          false VNone (fresh []))))
  = [{| url := "http://10.100.0.1:8080/api/v1/pods"; headers := [];
        verify := NoVerify; stream := false |}].
Proof. reflexivity. Qed.

(** ** C10: a list without a resource version *)



(** The requests of the worker in that case: the list, then the watch on
    the bare path. *)
Example manage_resource_watches_without_version :
  let w := fresh [list_reply 200 (Some pod_list_without_version)] in
  map url (requests (trace (snd (_manage_resource (agent_with ∅) "Pod" w))))
  = ["https://kubernetes.default:443/api/v1/pods";
     "https://kubernetes.default:443/api/v1/watch/pods"].
Proof. reflexivity. Qed.

(** * More of the agent at work *)

#[local] Existing Instance k8s_boot_constants.

Lemma add_handler_then_get_handler_witness :
  let self' := with_handlers {[ ("Pod", "ADDED") := quiet_handler ]} (agent_with ∅) in
  fst (add_handler (agent_with ∅) "Pod" "ADDED" quiet_handler (fresh [])) = Return self'
  /\ fst (get_handler self' (VStr "Pod") (VStr "ADDED") (fresh [])) = Return quiet_handler
  /\ fst (get_handler self' (VStr "Pod") (VStr "MODIFIED") (fresh [])) = Return quiet_handler.
Proof.
  intros self'.
  destruct (add_handler_then_get_handler (agent_with ∅) "Pod" "ADDED" quiet_handler
              (fresh []) self' eq_refl) as (Hsame & Hmodified & _).
  split; [reflexivity|]. split.
  - apply Hsame. discriminate.
  - apply Hmodified. reflexivity.
Defined.

Lemma handler_for_modified_is_never_resolved_witness :
  let self := agent_with {[ ("Pod", "ADDED") := quiet_handler ]} in
  let self' := with_handlers (<[("Pod", "MODIFIED") := raising_handler TypeError]>
                                (_handlers self)) self in
  fst (get_handler self' (VStr "Pod") (VStr "MODIFIED") (fresh []))
  = fst (get_handler self (VStr "Pod") (VStr "MODIFIED") (fresh [])).
Proof.
  intros self self'.
  apply (handler_for_modified_is_never_resolved self "Pod" (raising_handler TypeError)
           (fresh []) self'); [discriminate|reflexivity].
Defined.

Lemma read_token_file_strips_line_feeds_witness :
  fst (read_token_file pod_os (fresh [])) = Return (Some "s3cr3t").
Proof.
  destruct (read_token_file_strips_line_feeds pod_os (fresh [])) as [_ Hfile].
  destruct (Hfile ("s3cr3t" +:+ newline) eq_refl)
    as (token & Hrun & _ & _ & Hline & _).
  rewrite Hrun. rewrite (Hline "s3cr3t"); [reflexivity| |reflexivity].
  unfold no_newline. cbn. intuition discriminate.
Defined.

Lemma init_handler_table_witness :
  let self := init_agent pod_os (store_with []) sample_handlers in
  fst (get_handler self (VStr "Pod") (VStr "MODIFIED") (fresh []))
  = Return (add_update_pod sample_handlers)
  /\ fst (get_handler self (VStr "Namespace") (VStr "DELETED") (fresh []))
     = Return (delete_namespace sample_handlers)
  /\ fst (get_handler self (VStr "Pod") (VStr "ERROR") (fresh [])) = Raise KeyError.
Proof.
  intros self.
  destruct (init_handler_table pod_os (store_with []) sample_handlers (fresh []) self)
    with (w' := fresh []) as (_ & (_ & _ & Hns) & (_ & Hpod & _) & Hnone);
    try discriminate; [reflexivity|].
  split; [exact Hpod|]. split; [exact Hns|].
  apply Hnone. cbn. intuition discriminate.
Defined.

Lemma init_auth_token_witness :
  let self := init_agent bare_os (store_with []) sample_handlers in
  auth_token self = None
  /\ exists req,
       requests (trace (snd (_api_get self "https://kubernetes.default:443/api/v1/pods"
                               false VNone (fresh []))))
       = [req]
       /\ headers req = [].
Proof.
  intros self. split; [reflexivity|].
  assert (Hinit : fst (__init__ bare_os (store_with []) sample_handlers (fresh []))
                  = Return self) by reflexivity.
  destruct (init_auth_token bare_os (store_with []) sample_handlers (fresh []) self
              Hinit) as (_ & _ & _ & Hbare).
  destruct (Hbare (or_intror (conj eq_refl eq_refl))
              "https://kubernetes.default:443/api/v1/pods" false VNone (fresh []))
    as (req & Htrace & Hheaders).
  exists req. rewrite Htrace. split; [reflexivity|exact Hheaders].
Defined.

Lemma configure_etc_hosts_appends_witness :
  exists os',
    fst (configure_etc_hosts pod_os (fresh [])) = Return os'
    /\ files os' !! "/etc/hosts"
       = Some ("127.0.0.1 localhost" +:+ newline
               +:+ "10.0.0.1    kubernetes.default" +:+ newline)
    /\ files os' !! token_file_path = files pod_os !! token_file_path.
Proof.
  eexists. split; [reflexivity|].
  match goal with
  | |- files ?os' !! _ = _ /\ _ =>
      destruct (configure_etc_hosts_appends pod_os (fresh []) os' eq_refl)
        as (Hhosts & _ & Hother & _)
  end.
  split; [rewrite Hhosts; reflexivity|]. apply Hother. discriminate.
Defined.

Lemma watch_lines_reads_in_order_witness :
  let first := [envelope "ADDED" (object_of "Pod" "a" "6"); Malformed "{ type: MODI"] in
  let after := [envelope "DELETED" (object_of "Pod" "a" "8")] in
  fst (watch_lines (first ++ after) (VStr "5") (fresh [])) = Raise ValueError
  /\ queue (snd (watch_lines (first ++ after) (VStr "5") (fresh [])))
     = [(VStr "ADDED", VStr "Pod", object_of "Pod" "a" "6")].
Proof.
  intros first after.
  destruct (watch_lines_reads_in_order first after (VStr "5") (fresh [])) as [_ Hfail].
  assert (Hfirst : watch_lines first (VStr "5") (fresh [])
                   = (Raise ValueError, snd (watch_lines first (VStr "5") (fresh []))))
    by reflexivity.
  rewrite (Hfail ValueError _ Hfirst).
  split; reflexivity.
Defined.

Lemma watch_lines_good_stream_witness :
  let ls := [KeepAlive; envelope "ADDED" (object_of "Pod" "a" "6"); KeepAlive;
             envelope "MODIFIED" (object_of "Pod" "a" "7")] in
  fst (watch_lines ls (VStr "5") (fresh [])) = Return (VStr "7")
  /\ queue (snd (watch_lines ls (VStr "5") (fresh [])))
     = [(VStr "ADDED", VStr "Pod", object_of "Pod" "a" "6");
        (VStr "MODIFIED", VStr "Pod", object_of "Pod" "a" "7")].
Proof.
  intros ls.
  destruct (watch_lines_good_stream ls (VStr "5") (fresh [])) as (Hr & Hq & _).
  - unfold ls. repeat (apply List.Forall_cons; [first [now left | right; eexists; reflexivity]|]).
    apply List.Forall_nil.
  - right. cbn. lia.
  - split; [exact Hr|exact Hq].
Defined.

Lemma watch_event_without_version_witness :
  let object := VDict [("kind", VStr "Pod")] in
  let doc := VDict [("type", VStr "ADDED"); ("object", object)] in
  fst (watch_lines [Encoded doc] (VStr "5") (fresh [])) = Raise KeyError
  /\ queue (snd (watch_lines [Encoded doc] (VStr "5") (fresh [])))
     = [(VStr "ADDED", VStr "Pod", object)].
Proof.
  intros object doc.
  rewrite (watch_event_without_version doc (VStr "ADDED") object (VStr "Pod") KeyError
             [] (VStr "5") (fresh [])); try reflexivity.
  - split; reflexivity.
  - now left.
  - right. cbn. lia.
Defined.

Lemma worker_turn_order_witness :
  let self := agent_with ∅ in
  let stream := {| status_code := 200; body := None;
                   lines := [envelope "MODIFIED" (object_of "Pod" "a" "6")];
                   broken := None |} in
  let w := fresh [list_reply 200 (Some pod_list); Answer stream] in
  exists w2,
    (resource_version ← _sync_resources self "Pod";
     _watch_resource self "Pod" resource_version) w
    = replies_bound (fun fuel => watch_loop fuel self (watch_pods_url (k8s_api self))
                                   (VStr "6")) w2
    /\ queue w2 = [(VStr "ADDED", VStr "Pod", object_of "Pod" "a" "3");
                   (VStr "ADDED", VStr "Pod", object_of "Pod" "b" "4");
                   (VStr "MODIFIED", VStr "Pod", object_of "Pod" "a" "6")].
Proof.
  intros self stream w.
  destruct (worker_turn_order self "Pod" pods_url watch_pods_url
              {| status_code := 200; body := Some pod_list; lines := []; broken := None |}
              stream [] pod_list
              [object_of "Pod" "a" "3"; object_of "Pod" "b" "4"]
              (VDict [("resourceVersion", VStr "5")]) (VStr "5") w)
    as (w2 & Hrun & Hq & _); try reflexivity.
  - apply List.Forall_cons; [right; eexists; reflexivity|apply List.Forall_nil].
  - right. cbn. lia.
  - exists w2. split; [exact Hrun|exact Hq].
Defined.

Lemma worker_catches_four_classes_witness :
  let self := agent_with ∅ in
  let w := fresh [list_reply 200 (Some pod_list);
                  stream_reply [envelope "ERROR" (VDict [])];
                  list_reply 200 (Some pod_list)] in
  let w' := snd ((resource_version ← _sync_resources self "Pod";
                  _watch_resource self "Pod" resource_version) w) in
  _manage_resource self "Pod" w
  = _manage_resource self "Pod"
      (with_trace
         (trace w' ++ Log EXCEPTION "Kubernetes API error managing %s" [AStr "Pod"]
                      :: restart_events "Pod") w').
Proof.
  intros self w w'.
  assert (Hturn : (resource_version ← _sync_resources self "Pod";
                   _watch_resource self "Pod" resource_version) w
                  = (Raise KubernetesApiError, w')) by (vm_compute; reflexivity).
  destruct (worker_catches_four_classes self "Pod" KubernetesApiError w w' Hturn)
    as (_ & Hcaught & _).
  apply Hcaught. reflexivity.
Defined.

Lemma sync_resources_fills_queue_witness :
  let waiting := replicate 9 (VStr "ADDED", VStr "Pod", object_of "Pod" "z" "1") in
  let w := {| queue := waiting; cache := ∅; trace := [];
              net := [list_reply 200 (Some pod_list)] |} in
  fst (_sync_resources (agent_with ∅) "Pod" w) = Raise QueueFull
  /\ queue (snd (_sync_resources (agent_with ∅) "Pod" w))
     = waiting ++ [(VStr "ADDED", VStr "Pod", object_of "Pod" "a" "3")].
Proof.
  intros waiting w.
  destruct (sync_resources_fills_queue (agent_with ∅) "Pod" pods_url
              {| status_code := 200; body := Some pod_list; lines := []; broken := None |}
              [] pod_list [object_of "Pod" "a" "3"; object_of "Pod" "b" "4"]
              (VDict [("resourceVersion", VStr "5")]) (VStr "5") 1 w)
    as (Hr & Hq & _); try reflexivity.
  - cbn. lia.
  - split; [exact Hr|exact Hq].
Defined.

Lemma sync_resources_unusable_body_witness :
  let w := fresh [list_reply 200 (Some (VDict [("kind", VStr "Status")]));
                  list_reply 200 (Some pod_list)] in
  fst (_sync_resources (agent_with ∅) "Pod" w) = Raise KeyError
  /\ fst (_manage_resource (agent_with ∅) "Pod" w) = Raise KeyError
  /\ net (snd (_manage_resource (agent_with ∅) "Pod" w)) = [list_reply 200 (Some pod_list)].
Proof.
  intros w.
  destruct (sync_resources_unusable_body (agent_with ∅) "Pod" pods_url
              {| status_code := 200; body := Some (VDict [("kind", VStr "Status")]);
                 lines := []; broken := None |}
              [list_reply 200 (Some pod_list)] KeyError w)
    as (Hsync & _ & Hworker & Hnet); try reflexivity.
  - right. eexists. split; reflexivity.
  - split; [exact Hsync|]. split; [exact Hworker|exact Hnet].
Defined.

Lemma dispatcher_update_without_handler_witness :
  let self := agent_with {[ ("Pod", "ADDED") := quiet_handler ]} in
  let first := (VStr "BOOKMARK", VStr "Pod", object_of "Pod" "a" "3") in
  let second := (VStr "ADDED", VStr "Pod", object_of "Pod" "b" "4") in
  exists w',
    read_updates self (queued [first; second]) = read_updates self w'
    /\ queue w' = [second]
    /\ In (Log WARNING "No %s handlers for: %s" [AVal (VStr "BOOKMARK"); AVal (VStr "Pod")])
          (trace w').
Proof.
  intros self first second.
  destruct (dispatcher_update_without_handler self
              (VStr "BOOKMARK") (VStr "Pod") (object_of "Pod" "a" "3")
              (VDict [("name", VStr "a"); ("namespace", VStr "default");
                      ("resourceVersion", VStr "3")])
              (VStr "a") (VStr "default") KeyError [second] (queued [first; second]))
    as (Hskip & _); try reflexivity.
  destruct (Hskip (eq_refl KeyError)) as (_ & Hnext).
  eexists. split; [exact Hnext|]. split; [reflexivity|]. vm_compute. tauto.
Defined.

Lemma load_cache_last_wins_witness :
  let eps := [ {| workload_id := "default.web"; ep_labels := {[ "app" := "old" ]} |};
               {| workload_id := "default.web"; ep_labels := {[ "app" := "new" ]} |} ] in
  let self := {| k8s_api := "https://kubernetes.default:443";
                 auth_token := None; ca_crt_exists := false;
                 _client := store_with eps; _handlers := ∅ |} in
  cache (snd (load_cache self (fresh []))) !! "default.web" = Some {[ "app" := "new" ]}.
Proof.
  intros eps self.
  destruct (load_cache_last_wins self (fresh [])) as [Hloaded _].
  assert (Heps : get_endpoints (_client self) "k8s" = inr eps) by reflexivity.
  destruct (Hloaded eps Heps) as (_ & _ & Hlast).
  assert (Hsplit : eps
                   = [ {| workload_id := "default.web"; ep_labels := {[ "app" := "old" ]} |} ]
                     ++ {| workload_id := "default.web";
                           ep_labels := {[ "app" := "new" ]} |} :: [])
    by reflexivity.
  exact (Hlast _ _ _ Hsplit (fun H : False => H)).
Defined.

Lemma run_fails_before_workers_witness :
  let self := {| k8s_api := "https://kubernetes.default:443";
                 auth_token := None; ca_crt_exists := false;
                 _client := {| set_policy_tier_metadata := fun _ _ => None;
                               get_endpoints := fun _ => inl (OtherError "EtcdException") |};
                 _handlers := ∅ |} in
  fst (run self (fresh [])) = Raise (OtherError "EtcdException")
  /\ omap (fun ev => match ev with ThreadStart T => Some T | _ => None end)
       (trace (snd (run self (fresh [])))) = [].
Proof.
  intros self.
  destruct (run_fails_before_workers self (OtherError "EtcdException") (fresh []))
    as [_ Hlist].
  destruct Hlist as (Hr & _ & _ & Hstarted); [reflexivity|reflexivity|].
  split; [exact Hr|exact Hstarted].
Defined.

Lemma resync_then_dispatch_witness :
  let self := agent_with {[ ("Pod", "ADDED") := labelling_handler {[ "app" := "web" ]} ]} in
  let w := fresh [list_reply 200 (Some pod_list)] in
  let w1 := snd (_sync_resources self "Pod" w) in
  fst (read_updates self w1) = Blocked
  /\ queue (snd (read_updates self w1)) = []
  /\ cache (snd (read_updates self w1))
     = {[ "a" := {[ "app" := "web" ]}; "b" := {[ "app" := "web" ]} ]}.
Proof.
  intros self w w1.
  destruct (resync_then_dispatch self "Pod" pods_url
              {| status_code := 200; body := Some pod_list; lines := []; broken := None |}
              [] pod_list [object_of "Pod" "a" "3"; object_of "Pod" "b" "4"]
              (VDict [("resourceVersion", VStr "5")]) (VStr "5")
              (labelling_handler {[ "app" := "web" ]}) w)
    as (_ & Hr & Hq & Hc); try reflexivity.
  - right. cbn. lia.
  - repeat (apply List.Forall_cons; [eexists; reflexivity|]). apply List.Forall_nil.
  - intros key resource c e. unfold labelling_handler.
    destruct (snd key); cbn; congruence.
  - split; [exact Hr|]. split; [exact Hq|].
    etransitivity; [exact Hc|]. vm_compute. reflexivity.
Defined.

